(** * The adaptive simulation scheduler of the Game of Life page

    A shallow embedding of the timing logic of [www/index.ts]: the rate that
    the slider sets, the [fps] statistics object and [renderLoop] with its
    catch-up loop, and of the properties the specification states about it.
    The properties are stated of the latest revision of [renderLoop]; the
    revision before it, which has the same catch-up loop with a fixed budget,
    is embedded next to it, and so is the first revision, which steps once per
    processed frame at a fixed 30 Hz.  The drawing of the cells, the clicks on
    the canvas and the numbers that [fps] shows are embedded as well; the
    markup, the grid lines and the text-mode page [index.js] are not.

    Numbers.  A JavaScript [number] is a binary64 floating-point number.  The
    timing code is embedded twice.  In the first embedding a number is
    idealised as an exact rational ([Q]): [+], [-], [*], [/], [<], [>] and
    [Math.min] are the exact operations and equality is [Qeq] ([==]).  It
    carries the properties that rounding does not touch: which calls a frame
    makes and in which order, what a skipped or paused frame does, the bounds
    of the debt, the sample windows, the order of the rates, the canvas.  In
    the second embedding, the module [Binary64], a number is a primitive
    binary64 float with the operations of IEEE 754.  It carries the properties
    that rounding decides: how many passes the catch-up loop takes and what a
    frame does at a tie of the skip test.

    Collaborators.  [universe.tick()], [drawCells()], [universe.reset_cells()]
    and [universe.toggle_cell()] are opaque: the model records the calls made
    to them, newest first.  [performance.now()] reads a clock given as the
    stream of its successive readings.  The text written to the page
    ([textContent]) is not modelled. *)

From Stdlib Require Import QArith Qround Lqa Lia List Bool Arith ZArith.
From Stdlib Require Import PrimFloat SpecFloat FloatOps.
Import ListNotations.
Open Scope Q_scope.

(** ** JavaScript numbers and arrays *)

(** [x < y] on numbers, as a boolean. *)
Definition Qltb (x y : Q) : bool := negb (Qle_bool y x).

(** [x > y]. *)
Definition Qgtb (x y : Q) : bool := Qltb y x.

(** [Math.min(x, y)]. *)
Definition Math_min (x y : Q) : Q := if Qltb y x then y else x.

(** [Math.pow(x, 2)]. *)
Definition Math_pow2 (x : Q) : Q := x ^ 2.

(** [a.unshift(x)]: insert at the front. *)
Definition unshift (x : Q) (a : list Q) : list Q := x :: a.

(** [a.splice(n)]: delete every element from index [n] on. *)
Definition splice (n : nat) (a : list Q) : list Q := firstn n a.

(** The two statements [a.unshift(x); a.splice(100);] that every sample
    window of the page ([fps.frames], [tickTimes]) is updated with. *)
Definition record (x : Q) (a : list Q) : list Q := splice 100 (unshift x a).

(** A window fed with the samples [xs], in arrival order. *)
Definition recordAll (xs : list Q) (a : list Q) : list Q :=
  fold_left (fun acc x => record x acc) xs a.

(** ** The rate slider

    [[
      let rate = rateSlider.valueAsNumber;
      // Convert 0-25-100 to 0.2-1-1000
      if (rate < 25) { rate = 0.2 + (rate / 25) * 0.8; }
      else { rate = 1 + Math.pow((rate - 25) / 75, 2) * 999; }
      interval = 1000 / rate;
    ]] *)

(** The branch taken below 25. *)
Definition rate_low (raw : Q) : Q := 0.2 + (raw / 25) * 0.8.

(** The branch taken from 25 on. *)
Definition rate_high (raw : Q) : Q := 1 + Math_pow2 ((raw - 25) / 75) * 999.

Definition rateSlider_rate (raw : Q) : Q :=
  if Qltb raw 25 then rate_low raw else rate_high raw.

(** ** The state of the page *)

(** A call made to an opaque collaborator. *)
Inductive Call : Type :=
| universe_tick
| universe_reset_cells
| universe_toggle_cell (row col : Z)
| drawCells.

Record World : Type := mkWorld {
  (* module-level variables *)
  paused : bool;
  interval : Q;
  (* the [fps] object *)
  frames : list Q;
  lastFrameTimeStamp : Q;
  (* the locals of [renderLoop] *)
  lastFrameStart : Q;
  delta : Q;
  tickTimes : list Q;
  lastFrameEnd : Q;
  (* the environment: calls made so far (newest first), clock readings taken *)
  calls : list Call;
  reads : nat
}.

Definition set_paused (b : bool) (w : World) : World :=
  mkWorld b (interval w) (frames w) (lastFrameTimeStamp w) (lastFrameStart w)
          (delta w) (tickTimes w) (lastFrameEnd w) (calls w) (reads w).

Definition set_interval (i : Q) (w : World) : World :=
  mkWorld (paused w) i (frames w) (lastFrameTimeStamp w) (lastFrameStart w)
          (delta w) (tickTimes w) (lastFrameEnd w) (calls w) (reads w).

Definition set_frames (f : list Q) (w : World) : World :=
  mkWorld (paused w) (interval w) f (lastFrameTimeStamp w) (lastFrameStart w)
          (delta w) (tickTimes w) (lastFrameEnd w) (calls w) (reads w).

Definition set_lastFrameTimeStamp (t : Q) (w : World) : World :=
  mkWorld (paused w) (interval w) (frames w) t (lastFrameStart w)
          (delta w) (tickTimes w) (lastFrameEnd w) (calls w) (reads w).

Definition set_lastFrameStart (t : Q) (w : World) : World :=
  mkWorld (paused w) (interval w) (frames w) (lastFrameTimeStamp w) t
          (delta w) (tickTimes w) (lastFrameEnd w) (calls w) (reads w).

Definition set_delta (d : Q) (w : World) : World :=
  mkWorld (paused w) (interval w) (frames w) (lastFrameTimeStamp w)
          (lastFrameStart w) d (tickTimes w) (lastFrameEnd w) (calls w)
          (reads w).

Definition set_tickTimes (l : list Q) (w : World) : World :=
  mkWorld (paused w) (interval w) (frames w) (lastFrameTimeStamp w)
          (lastFrameStart w) (delta w) l (lastFrameEnd w) (calls w) (reads w).

Definition set_lastFrameEnd (t : Q) (w : World) : World :=
  mkWorld (paused w) (interval w) (frames w) (lastFrameTimeStamp w)
          (lastFrameStart w) (delta w) (tickTimes w) t (calls w) (reads w).

(** A call to a collaborator is logged. *)
Definition call (c : Call) (w : World) : World :=
  mkWorld (paused w) (interval w) (frames w) (lastFrameTimeStamp w)
          (lastFrameStart w) (delta w) (tickTimes w) (lastFrameEnd w)
          (c :: calls w) (reads w).

(** [performance.now()]: the next reading of the clock. *)
Definition performance_now (clock : nat -> Q) (w : World) : Q * World :=
  (clock (reads w),
   mkWorld (paused w) (interval w) (frames w) (lastFrameTimeStamp w)
           (lastFrameStart w) (delta w) (tickTimes w) (lastFrameEnd w)
           (calls w) (S (reads w))).

(** How often a collaborator was called. *)
Definition is_tick (c : Call) : bool :=
  match c with universe_tick => true | _ => false end.

Definition is_draw (c : Call) : bool :=
  match c with drawCells => true | _ => false end.

(** The number of automaton steps taken so far. *)
Definition ticks (w : World) : nat := length (filter is_tick (calls w)).

(** The number of renders requested so far. *)
Definition draws (w : World) : nat := length (filter is_draw (calls w)).

(** ** The handlers of the controls *)

(** [playPauseButton]'s click handler: [paused = !paused]. *)
Definition playPause_click (w : World) : World :=
  set_paused (negb (paused w)) w.

(** [rateSlider]'s input handler, [raw] being [rateSlider.valueAsNumber]. *)
Definition rateSlider_input (raw : Q) (w : World) : World :=
  set_interval (1000 / rateSlider_rate raw) w.

(** [clearButton]'s click handler. *)
Definition clear_click (w : World) : World :=
  call drawCells (call universe_reset_cells w).

(** [canvas]'s click handler, [row] and [col] being the cell it computes from
    the position of the pointer. *)
Definition canvas_click (row col : Z) (w : World) : World :=
  call drawCells (call (universe_toggle_cell row col) w).

(** ** The [fps] object

    [[
      const now = performance.now();
      const frameTime = now - this.lastFrameTimeStamp;
      this.lastFrameTimeStamp = now;
      this.frames.unshift(frameTime);
      this.frames.splice(100);
    ]] *)
Definition fps_render (clock : nat -> Q) (w : World) : World :=
  let (now, w) := performance_now clock w in
  let frameTime := now - lastFrameTimeStamp w in
  let w := set_lastFrameTimeStamp now w in
  set_frames (record frameTime (frames w)) w.

(** ** [renderLoop]

    The catch-up loop of one frame:
    [[
      while (delta > interval) {
        universe.tick();
        delta -= interval;
        let now = performance.now();
        tickTimes.unshift(now);
        tickTimes.splice(100);
        if (now - thisFrameStart > maxFrameTime) { break; }
      }
    ]]
    [fuel] bounds the number of passes; [None] means that the loop was still
    running when the fuel ran out. *)
Fixpoint renderLoop_while (clock : nat -> Q) (fuel : nat)
    (thisFrameStart maxFrameTime : Q) (w : World) : option World :=
  if Qgtb (delta w) (interval w) then
    match fuel with
    | O => None
    | S fuel' =>
        let w := call universe_tick w in
        let w := set_delta (delta w - interval w) w in
        let (now, w) := performance_now clock w in
        let w := set_tickTimes (record now (tickTimes w)) w in
        if Qgtb (now - thisFrameStart) maxFrameTime then Some w
        else renderLoop_while clock fuel' thisFrameStart maxFrameTime w
    end
  else Some w.

(** The test that sends a frame back to the [await] with [continue]:
    [paused || timeDiff < interval - delta]. *)
Definition skips (thisFrameStart : Q) (w : World) : bool :=
  let timeDiff := thisFrameStart - lastFrameStart w in
  paused w || Qltb timeDiff (interval w - delta w).

(** One pass of the [while (true)] of [renderLoop], from the timestamp that
    [requestAnimationFrame] delivers to the next [await]. *)
Definition renderLoop_frame (clock : nat -> Q) (fuel : nat)
    (thisFrameStart : Q) (w : World) : option World :=
  let timeDiff := thisFrameStart - lastFrameStart w in
  if paused w || Qltb timeDiff (interval w - delta w) then
    Some w (* continue *)
  else
    let w := set_delta (delta w + timeDiff) w in
    let w := set_lastFrameStart thisFrameStart w in
    let idleTime := thisFrameStart - lastFrameEnd w in
    let maxFrameTime := Math_min 100 (idleTime * 4) in
    let w := fps_render clock w in
    match renderLoop_while clock fuel thisFrameStart maxFrameTime w with
    | None => None
    | Some w =>
        let w := set_delta (Math_min (interval w) (delta w)) w in
        let w := call drawCells w in
        let (now, w) := performance_now clock w in
        Some (set_lastFrameEnd now w)
    end.

(** [renderLoop] over the frames with timestamps [ts]: the number of automaton
    steps each frame took, and the state at the last [await]. *)
Fixpoint renderLoop (clock : nat -> Q) (fuel : nat) (ts : list Q) (w : World)
    : option (list nat * World) :=
  match ts with
  | [] => Some ([], w)
  | t :: ts' =>
      match renderLoop_frame clock fuel t w with
      | None => None
      | Some w1 =>
          match renderLoop clock fuel ts' w1 with
          | None => None
          | Some (ns, w2) => Some ((ticks w1 - ticks w)%nat :: ns, w2)
          end
      end
  end.

(** The page as it is when [renderLoop] reaches its first [await]; [raw] is
    the position the slider starts at.  The module sets [paused = false] and
    [interval = 1], clicks the play/pause button once, dispatches one input
    event to the slider and builds [fps]; [renderLoop] then sets
    [lastFrameStart = performance.now()], [delta = 0], calls [drawCells()] and
    sets [tickTimes = []] and [lastFrameEnd = 0]. *)
Definition page_load (clock : nat -> Q) (raw : Q) : World :=
  let w := mkWorld false 1 [] 0 0 0 [] 0 [] 0%nat in
  let w := playPause_click w in
  let w := rateSlider_input raw w in
  let (now, w) := performance_now clock w in
  let w := set_lastFrameTimeStamp now (set_frames [] w) in
  let (now, w) := performance_now clock w in
  let w := set_lastFrameStart now w in
  let w := set_delta 0 w in
  let w := call drawCells w in
  let w := set_tickTimes [] w in
  set_lastFrameEnd 0 w.

(** ** The page as an event-driven system

    Between two [await]s of [renderLoop] the handlers of the controls may
    run. *)
Inductive Event : Type :=
| AnimationFrame (t : Q)
| PlayPauseClick
| RateInput (raw : Q)
| ClearClick
| CanvasClick (row col : Z).

Definition handle (clock : nat -> Q) (fuel : nat) (e : Event) (w : World)
    : option World :=
  match e with
  | AnimationFrame t => renderLoop_frame clock fuel t w
  | PlayPauseClick => Some (playPause_click w)
  | RateInput raw => Some (rateSlider_input raw w)
  | ClearClick => Some (clear_click w)
  | CanvasClick row col => Some (canvas_click row col w)
  end.

Fixpoint run (clock : nat -> Q) (fuel : nat) (es : list Event) (w : World)
    : option World :=
  match es with
  | [] => Some w
  | e :: es' =>
      match handle clock fuel e w with
      | None => None
      | Some w' => run clock fuel es' w'
      end
  end.

(** Modelled from the spec: the range of the slider, whose markup is not
    among the sources; the specification gives the raw value as a number
    between 0 and 100. *)
Definition slider_range (e : Event) : Prop :=
  match e with
  | RateInput raw => 0 <= raw <= 100
  | _ => True
  end.

(** ** The earlier revision of [renderLoop]

    The revision before the latest has no [tickTimes] and no [lastFrameEnd],
    calls [fps.render()] first, and gives every frame a budget of 5 ms:
    [[
      fps.render();
      delta += timeDiff;
      lastTime = time;
      let count = 0;
      while (delta > interval) {
        ++count;
        universe.tick();
        delta -= interval;
        if (performance.now() - time > 5) {
          if (delta > interval) { console.log("Took too long", ...); }
          break;
        }
      }
      delta = Math.min(interval, delta);
      drawCells();
    ]]
    Its [lastTime] is kept in the field [lastFrameStart]; [count] only feeds
    the console and is left out. *)
Fixpoint renderLoop_while_earlier (clock : nat -> Q) (fuel : nat) (time : Q)
    (w : World) : option World :=
  if Qgtb (delta w) (interval w) then
    match fuel with
    | O => None
    | S fuel' =>
        let w := call universe_tick w in
        let w := set_delta (delta w - interval w) w in
        let (now, w) := performance_now clock w in
        if Qgtb (now - time) 5 then Some w
        else renderLoop_while_earlier clock fuel' time w
    end
  else Some w.

Definition renderLoop_frame_earlier (clock : nat -> Q) (fuel : nat)
    (time : Q) (w : World) : option World :=
  let timeDiff := time - lastFrameStart w in
  if paused w || Qltb timeDiff (interval w - delta w) then
    Some w (* continue *)
  else
    let w := fps_render clock w in
    let w := set_delta (delta w + timeDiff) w in
    let w := set_lastFrameStart time w in
    match renderLoop_while_earlier clock fuel time w with
    | None => None
    | Some w =>
        let w := set_delta (Math_min (interval w) (delta w)) w in
        Some (call drawCells w)
    end.

(** ** The first revision of [renderLoop]

    The first revision has no slider: the interval is the constant
    [1000 / 30], a processed frame steps the automaton once, and [fps] keeps
    rates instead of frame times:
    [[
      if (paused || time - lastTime < interval - delta) { continue; }
      fps.render();
      delta = Math.min(interval, delta + time - lastTime - interval);
      lastTime = time;
      universe.tick();
      drawCells();
    ]]
    Its [lastTime] is kept in the field [lastFrameStart]; the field [interval]
    of the state is not read. *)
Definition interval_first : Q := 1000 / 30.

(** [fps.render()] of the first revision:
    [[
      const now = performance.now();
      const fps = 1000 / (now - this.lastFrameTimeStamp);
      this.lastFrameTimeStamp = now;
      this.frames.unshift(fps);
      this.frames.splice(100);
    ]] *)
Definition fps_render_first (clock : nat -> Q) (w : World) : World :=
  let (now, w) := performance_now clock w in
  let fps := 1000 / (now - lastFrameTimeStamp w) in
  let w := set_lastFrameTimeStamp now w in
  set_frames (record fps (frames w)) w.

Definition renderLoop_frame_first (clock : nat -> Q) (time : Q) (w : World)
    : World :=
  if paused w || Qltb (time - lastFrameStart w) (interval_first - delta w)
  then w (* continue *)
  else
    let w := fps_render_first clock w in
    let w :=
      set_delta
        (Math_min interval_first
           (delta w + time - lastFrameStart w - interval_first)) w in
    let w := set_lastFrameStart time w in
    let w := call universe_tick w in
    call drawCells w.

(** ** The canvas *)

Definition CELL_SIZE : nat := 5.

(** [canvas.width = (CELL_SIZE + 1) * width + 1], and [canvas.height]
    likewise. *)
Definition canvas_width (width : nat) : nat := (CELL_SIZE + 1) * width + 1.

Definition canvas_height (height : nat) : nat := (CELL_SIZE + 1) * height + 1.

(** [getIndex = (row, column) => row * width + column]. *)
Definition getIndex (width row column : nat) : nat := row * width + column.

(** The colours the page names: [GRID_COLOR = "#CCCCCC"],
    [DEAD_COLOR = "#FFFFFF"], [ALIVE_COLOR = "#000000"]. *)
Inductive Color : Type := GRID_COLOR | DEAD_COLOR | ALIVE_COLOR.

(** A call on the 2D context of the canvas. *)
Inductive CanvasOp : Type :=
| putImageData
| beginPath
| fillStyle (c : Color)
| fillRect (x y w h : nat)
| stroke.

(** The body of the two loops of [drawCells] for one cell:
    [[
      const idx = getIndex(row, col);
      if (cells[idx] != Cell.Alive) { continue; }
      ctx.fillRect(col * (CELL_SIZE + 1) + 1, row * (CELL_SIZE + 1) + 1,
                   CELL_SIZE, CELL_SIZE);
    ]]
    [cells] is the [Uint8Array] over the cells of the universe; an index past
    its end reads [undefined], which differs from [Cell.Alive].  [Alive] is
    the value of [Cell.Alive], which the sources import. *)
Definition drawCells_cell (Alive : nat) (cells : list nat)
    (width row col : nat) : list CanvasOp :=
  let idx := getIndex width row col in
  match nth_error cells idx with
  | Some v =>
      if negb (Nat.eqb v Alive) then [] (* continue *)
      else [fillRect (col * (CELL_SIZE + 1) + 1) (row * (CELL_SIZE + 1) + 1)
              CELL_SIZE CELL_SIZE]
  | None => [] (* continue *)
  end.

(** [drawCells] of the latest revision: [putImageData], [beginPath], the
    cells row by row and column by column, [stroke]. *)
Definition drawCells_ops (Alive : nat) (cells : list nat)
    (width height : nat) : list CanvasOp :=
  [putImageData; beginPath] ++
  flat_map
    (fun row =>
       flat_map (fun col => drawCells_cell Alive cells width row col)
         (seq 0 width))
    (seq 0 height) ++
  [stroke].

(** [drawCells] of the first revision, which paints the live cells and then
    the dead ones:
    [[
      ctx.beginPath();
      for (let [filter, color] of [[Cell.Alive, ALIVE_COLOR],
                                   [Cell.Dead, DEAD_COLOR]]) {
        ctx.fillStyle = color;
        for (let row = 0; row < height; row++) {
          for (let col = 0; col < width; col++) {
            const idx = getIndex(row, col);
            if (cells[idx] != filter) { continue; }
            ctx.fillRect(...);
          }
        }
      }
      ctx.stroke();
    ]]
    [Dead] is the value of [Cell.Dead]. *)
Definition drawCells_first_ops (Alive Dead : nat) (cells : list nat)
    (width height : nat) : list CanvasOp :=
  [beginPath] ++
  flat_map
    (fun fc : nat * Color =>
       let (filter, color) := fc in
       fillStyle color ::
       flat_map
         (fun row =>
            flat_map (fun col => drawCells_cell filter cells width row col)
              (seq 0 width))
         (seq 0 height))
    [(Alive, ALIVE_COLOR); (Dead, DEAD_COLOR)] ++
  [stroke].

(** [canvas.getBoundingClientRect()]. *)
Record DOMRect : Type := mkDOMRect {
  rect_left : Q;
  rect_top : Q;
  rect_width : Q;
  rect_height : Q
}.

(** The coordinates on the canvas of a click at [clientX], [clientY]:
    [[
      const scaleX = canvas.width / boundingRect.width;
      const canvasLeft = (event.clientX - boundingRect.left) * scaleX;
    ]] *)
Definition canvasLeft (width : nat) (r : DOMRect) (clientX : Q) : Q :=
  let scaleX := inject_Z (Z.of_nat (canvas_width width)) / rect_width r in
  (clientX - rect_left r) * scaleX.

Definition canvasTop (height : nat) (r : DOMRect) (clientY : Q) : Q :=
  let scaleY := inject_Z (Z.of_nat (canvas_height height)) / rect_height r in
  (clientY - rect_top r) * scaleY.

(** The cell a click on the canvas is taken for:
    [[
      const row = Math.min(Math.floor(canvasTop / (CELL_SIZE + 1)), height - 1);
      const col = Math.min(Math.floor(canvasLeft / (CELL_SIZE + 1)), width - 1);
    ]] *)
Definition click_row (height : nat) (r : DOMRect) (clientY : Q) : Z :=
  Z.min
    (Qfloor (canvasTop height r clientY /
             inject_Z (Z.of_nat (CELL_SIZE + 1))))
    (Z.of_nat height - 1).

Definition click_col (width : nat) (r : DOMRect) (clientX : Q) : Z :=
  Z.min
    (Qfloor (canvasLeft width r clientX /
             inject_Z (Z.of_nat (CELL_SIZE + 1))))
    (Z.of_nat width - 1).

(** [canvas]'s click handler, from the position of the pointer. *)
Definition canvas_click_at (width height : nat) (r : DOMRect)
    (clientX clientY : Q) (w : World) : World :=
  canvas_click (click_row height r clientY) (click_col width r clientX) w.

(** ** The statistics that [fps.render()] shows *)

(** [Math.round(x)]: the nearest integer, halves going up. *)
Definition Math_round (x : Q) : Q := inject_Z (Qfloor (x + 1 / 2)).

(** [roundTenth = (x) => Math.round(x * 10) / 10]. *)
Definition roundTenth (x : Q) : Q := Math_round (x * 10) / 10.

(** [Math.max(x, y)]. *)
Definition Math_max (x y : Q) : Q := if Qltb x y then y else x.

(** [Math.min(...a)] and [Math.max(...a)]; of an empty array they are
    [Infinity] and [-Infinity], which no rational stands for: [None]. *)
Definition Math_min_spread (a : list Q) : option Q :=
  match a with
  | [] => None
  | x :: a' => Some (fold_left Math_min a' x)
  end.

Definition Math_max_spread (a : list Q) : option Q :=
  match a with
  | [] => None
  | x :: a' => Some (fold_left Math_max a' x)
  end.

(** [frames.reduce((a, b) => a + b, 0) / frames.length]. *)
Definition mean (frames : list Q) : Q :=
  fold_left Qplus frames 0 / inject_Z (Z.of_nat (length frames)).

(** The four numbers that [fps.render()] of the latest revision writes:
    [[
      latest = ${roundTenth(1000 / frameTime)}
      avg of last 100 = ${roundTenth(1000 / mean)}
      min of last 100 = ${roundTenth(1000 / Math.max(...frames))}
      max of last 100 = ${roundTenth(1000 / Math.min(...frames))}
    ]] *)
Record FpsText : Type := mkFpsText {
  text_latest : Q;
  text_avg : Q;
  text_min : Q;
  text_max : Q
}.

Definition fps_text (frameTime : Q) (frames : list Q) : option FpsText :=
  match Math_max_spread frames, Math_min_spread frames with
  | Some hi, Some lo =>
      Some (mkFpsText (roundTenth (1000 / frameTime))
              (roundTenth (1000 / mean frames))
              (roundTenth (1000 / hi))
              (roundTenth (1000 / lo)))
  | _, _ => None
  end.

(** What [fps.render()] writes when it runs in the state [w]. *)
Definition fps_render_text (clock : nat -> Q) (w : World) : option FpsText :=
  fps_text (clock (reads w) - lastFrameTimeStamp w)
    (frames (fps_render clock w)).

(** ** Vocabulary of the properties *)

(** A count as a number. *)
Definition nq (n : nat) : Q := inject_Z (Z.of_nat n).

(** The budget [maxFrameTime = Math.min(100, idleTime * 4)] of the frame that
    starts at [thisFrameStart]. *)
Definition maxFrameTime (thisFrameStart : Q) (w : World) : Q :=
  Math_min 100 ((thisFrameStart - lastFrameEnd w) * 4).

(** The state in which a frame that is not skipped enters its catch-up loop. *)
Definition loop_entry (clock : nat -> Q) (thisFrameStart : Q) (w : World)
    : World :=
  fps_render clock
    (set_lastFrameStart thisFrameStart
       (set_delta (delta w + (thisFrameStart - lastFrameStart w)) w)).

(** What a frame does after its catch-up loop: the clamp, [drawCells()] and
    [lastFrameEnd = performance.now()]. *)
Definition loop_exit (clock : nat -> Q) (w : World) : World :=
  let w := set_delta (Math_min (interval w) (delta w)) w in
  let w := call drawCells w in
  let (now, w) := performance_now clock w in
  set_lastFrameEnd now w.

(** The state after one pass of the catch-up loop: [universe.tick()],
    [delta -= interval], and the reading of the clock recorded in
    [tickTimes]. *)
Definition pass (clock : nat -> Q) (w : World) : World :=
  let w := call universe_tick w in
  let w := set_delta (delta w - interval w) w in
  let (now, w) := performance_now clock w in
  set_tickTimes (record now (tickTimes w)) w.

(** What the catch-up loop of the frame that started at [t] with the budget
    [m] has done when it leaves the state [w'] after [k] passes from [w]. *)
Record passes (clock : nat -> Q) (t m : Q) (k : nat) (w w' : World)
    : Prop := mkPasses {
  (* [k] calls of [universe.tick()], and nothing else, were made *)
  ps_calls : calls w' = repeat universe_tick k ++ calls w;
  ps_reads : reads w' = (k + reads w)%nat;
  (* each pass took one interval off the debt *)
  ps_delta : delta w' == delta w - nq k * interval w;
  ps_tickTimes :
    tickTimes w' = recordAll (map clock (seq (reads w) k)) (tickTimes w);
  ps_paused : paused w' = paused w;
  ps_interval : interval w' = interval w;
  ps_frames : frames w' = frames w;
  ps_lastFrameTimeStamp : lastFrameTimeStamp w' = lastFrameTimeStamp w;
  ps_lastFrameStart : lastFrameStart w' = lastFrameStart w;
  ps_lastFrameEnd : lastFrameEnd w' = lastFrameEnd w;
  (* every pass was entered with more than one interval of debt *)
  ps_entered :
    forall j, (j < k)%nat -> interval w < delta w - nq j * interval w;
  (* no pass but the last ended past the budget *)
  ps_within :
    forall j, (S j < k)%nat -> clock (reads w + j)%nat - t <= m;
  (* the loop ended on its test, or on [break] *)
  ps_exit :
    delta w' <= interval w \/
    ((0 < k)%nat /\ m < clock (reads w + (k - 1))%nat - t)
}.

(** What a frame of the earlier revision does after its catch-up loop. *)
Definition loop_exit_earlier (w : World) : World :=
  call drawCells (set_delta (Math_min (interval w) (delta w)) w).

(** Frames that arrive every 16.7 ms after [t0]: the timestamps of the frames
    number [k], [k + 1], ..., [k + n - 1]. *)
Definition stamps (t0 : Q) (k n : nat) : list Q :=
  map (fun i => t0 + nq i * 16.7) (seq k n).

(** One step on every frame with an even number, none on the others. *)
Definition alternating (k n : nat) : list nat :=
  map (fun i => if Nat.even i then 1%nat else 0%nat) (seq k n).

(** Where the loop stands after [k] frames that arrive every 16.7 ms after
    [t0] at 30 Hz, as long as the frames with odd numbers are skipped and
    those with even numbers are processed: each processed frame has left
    a fifteenth of a millisecond of debt more than the one before. *)
Definition in_phase (t0 : Q) (k : nat) (w : World) : Prop :=
  paused w = false /\
  interval w == 1000 / 30 /\
  delta w == nq (Nat.div2 k) / 15 /\
  lastFrameStart w == t0 + nq (Nat.div2 k) * 33.4.

(** *** Concrete pages and clocks used as examples *)

(** The clock of a page that loads at time 0 and is woken again 5000 ms
    later: the two readings taken while loading are 0 and 0.1, the later ones
    5000.2, 5000.3 and so on, a tenth of a millisecond apart. *)
Definition clock_stall (n : nat) : Q :=
  if (n <? 2)%nat then nq n / 10 else 5000 + nq n / 10.

(** The page just loaded with the slider at 25, that is at 1 Hz
    ([interval = 1000]); it is paused, and [lastFrameStart] is 0.1. *)
Definition world_loaded : World := page_load clock_stall 25.

(** The same page after a click on the play/pause button: running. *)
Definition world_1Hz : World := playPause_click world_loaded.

(** A running page at the 30 Hz that C7 supposes ([interval = 1000 / 30]),
    loaded at time 0, no debt. *)
Definition world_30Hz : World :=
  mkWorld false (1000 / 30) [] 0 0 0 [] 0 [drawCells] 2%nat.

(** A clock for frames every 16.7 ms of which every other one is processed,
    a processed frame reading the clock three times: the readings are 33.4 / 3
    ms apart, and the reading number 2 is taken at 33.4. *)
Definition clock_60Hz (n : nat) : Q := nq (S n) * (33.4 / 3).

(** A history of the page after it has loaded. *)
Definition history : list Event :=
  [AnimationFrame 16.8; PlayPauseClick; AnimationFrame 5000.1; RateInput 50;
   AnimationFrame 5016.8; PlayPauseClick; CanvasClick 3 4;
   AnimationFrame 5033.5; PlayPauseClick; AnimationFrame 5050.2].

(** 150 samples: 1, 2, ..., 150. *)
Definition samples150 : list Q := map nq (seq 1 150).

(** *** Vocabulary of the further properties *)

(** Any event but a click on the play/pause button. *)
Definition not_play_click (e : Event) : Prop :=
  match e with
  | PlayPauseClick => False
  | _ => True
  end.

Definition is_fillRect (op : CanvasOp) : bool :=
  match op with fillRect _ _ _ _ => true | _ => false end.

(** Two rectangles have a pixel in common. *)
Definition overlap (x1 y1 w1 h1 x2 y2 w2 h2 : nat) : Prop :=
  (x1 < x2 + w2 /\ x2 < x1 + w1 /\ y1 < y2 + h2 /\ y2 < y1 + h1)%nat.

(** A canvas of 4 by 3 cells shown at twice its size at (10, 20). *)
Definition rect_example : DOMRect := mkDOMRect 10 20 50 38.

(** The cells of a universe of 4 by 3 cells in which 1 stands for a live
    cell: a glider. *)
Definition cells_example : list nat :=
  [0; 1; 0; 0;
   0; 0; 1; 0;
   1; 1; 1; 0]%nat.

(** Frames at the display's pace with one stall. *)
Definition frames_example : list Q := [16.7; 33.4; 50.1; 5000; 5016.7].

(** A running page whose last three processed frames took 20, 10 and 40 ms,
    the last of them rendered at 4983.8 ms. *)
Definition world_shown : World :=
  mkWorld false 1000 [20; 10; 40] 4983.8 4983.7 1000 [] 4984 [drawCells]
          5%nat.

(** * The timing code on binary64 numbers

    The number of passes of the catch-up loop and the outcome of a tie of the
    skip test depend on how [delta + timeDiff], [interval - delta] and
    [delta -= interval] are rounded.  The module [Binary64] embeds the same
    statements of the source as above, name by name, on Rocq's primitive
    binary64 floats: [+], [-], [*] and [/] round to nearest, ties to even, and
    the comparisons are those of IEEE 754.  A decimal literal stands for the
    nearest binary64 number, as it does in JavaScript. *)

Module Binary64.

#[local] Set Warnings "-inexact-float".
Local Open Scope float_scope.

(** [x < y]: false when an operand is [NaN]. *)
Definition Fltb (x y : float) : bool :=
  match x ?= y with
  | FLt => true
  | _ => false
  end.

(** [x > y]: false when an operand is [NaN]. *)
Definition Fgtb (x y : float) : bool :=
  match x ?= y with
  | FGt => true
  | _ => false
  end.

(** [Math.min(x, y)]: [NaN] when an operand is [NaN], and [-0] is below
    [+0]. *)
Definition Math_min (x y : float) : float :=
  match x ?= y with
  | FLt => x
  | FGt => y
  | FEq => if get_sign x then x else y
  | FNotComparable => nan
  end.

(** [Math.pow(x, 2)], taken to be the correctly rounded square. *)
Definition Math_pow2 (x : float) : float := x * x.

(** [a.unshift(x)], [a.splice(n)] and the two together,
    [a.unshift(x); a.splice(100);]. *)
Definition unshift (x : float) (a : list float) : list float := x :: a.

Definition splice (n : nat) (a : list float) : list float := firstn n a.

Definition record (x : float) (a : list float) : list float :=
  splice 100 (unshift x a).

(** The rate slider:
    [[
      if (rate < 25) { rate = 0.2 + (rate / 25) * 0.8; }
      else { rate = 1 + Math.pow((rate - 25) / 75, 2) * 999; }
      interval = 1000 / rate;
    ]] *)
Definition rate_low (raw : float) : float := 0.2 + (raw / 25) * 0.8.

Definition rate_high (raw : float) : float :=
  1 + Math_pow2 ((raw - 25) / 75) * 999.

Definition rateSlider_rate (raw : float) : float :=
  if Fltb raw 25 then rate_low raw else rate_high raw.

(** The state of the page, with the fields of [World] above. *)
Record World : Type := mkWorld {
  (* module-level variables *)
  paused : bool;
  interval : float;
  (* the [fps] object *)
  frames : list float;
  lastFrameTimeStamp : float;
  (* the locals of [renderLoop] *)
  lastFrameStart : float;
  delta : float;
  tickTimes : list float;
  lastFrameEnd : float;
  (* the environment: calls made so far (newest first), clock readings taken *)
  calls : list Call;
  reads : nat
}.

Definition set_paused (b : bool) (w : World) : World :=
  mkWorld b (interval w) (frames w) (lastFrameTimeStamp w) (lastFrameStart w)
          (delta w) (tickTimes w) (lastFrameEnd w) (calls w) (reads w).

Definition set_interval (i : float) (w : World) : World :=
  mkWorld (paused w) i (frames w) (lastFrameTimeStamp w) (lastFrameStart w)
          (delta w) (tickTimes w) (lastFrameEnd w) (calls w) (reads w).

Definition set_frames (f : list float) (w : World) : World :=
  mkWorld (paused w) (interval w) f (lastFrameTimeStamp w) (lastFrameStart w)
          (delta w) (tickTimes w) (lastFrameEnd w) (calls w) (reads w).

Definition set_lastFrameTimeStamp (t : float) (w : World) : World :=
  mkWorld (paused w) (interval w) (frames w) t (lastFrameStart w)
          (delta w) (tickTimes w) (lastFrameEnd w) (calls w) (reads w).

Definition set_lastFrameStart (t : float) (w : World) : World :=
  mkWorld (paused w) (interval w) (frames w) (lastFrameTimeStamp w) t
          (delta w) (tickTimes w) (lastFrameEnd w) (calls w) (reads w).

Definition set_delta (d : float) (w : World) : World :=
  mkWorld (paused w) (interval w) (frames w) (lastFrameTimeStamp w)
          (lastFrameStart w) d (tickTimes w) (lastFrameEnd w) (calls w)
          (reads w).

Definition set_tickTimes (l : list float) (w : World) : World :=
  mkWorld (paused w) (interval w) (frames w) (lastFrameTimeStamp w)
          (lastFrameStart w) (delta w) l (lastFrameEnd w) (calls w) (reads w).

Definition set_lastFrameEnd (t : float) (w : World) : World :=
  mkWorld (paused w) (interval w) (frames w) (lastFrameTimeStamp w)
          (lastFrameStart w) (delta w) (tickTimes w) t (calls w) (reads w).

(** A call to a collaborator is logged. *)
Definition call (c : Call) (w : World) : World :=
  mkWorld (paused w) (interval w) (frames w) (lastFrameTimeStamp w)
          (lastFrameStart w) (delta w) (tickTimes w) (lastFrameEnd w)
          (c :: calls w) (reads w).

(** [performance.now()]: the next reading of the clock. *)
Definition performance_now (clock : nat -> float) (w : World)
    : float * World :=
  (clock (reads w),
   mkWorld (paused w) (interval w) (frames w) (lastFrameTimeStamp w)
           (lastFrameStart w) (delta w) (tickTimes w) (lastFrameEnd w)
           (calls w) (S (reads w))).

(** The number of automaton steps taken, and of renders requested, so far. *)
Definition ticks (w : World) : nat := length (filter is_tick (calls w)).

Definition draws (w : World) : nat := length (filter is_draw (calls w)).

(** [playPauseButton]'s click handler: [paused = !paused]. *)
Definition playPause_click (w : World) : World :=
  set_paused (negb (paused w)) w.

(** [rateSlider]'s input handler, [raw] being [rateSlider.valueAsNumber]. *)
Definition rateSlider_input (raw : float) (w : World) : World :=
  set_interval (1000 / rateSlider_rate raw) w.

(** [fps.render()], as far as it changes the state:
    [[
      const now = performance.now();
      const frameTime = now - this.lastFrameTimeStamp;
      this.lastFrameTimeStamp = now;
      this.frames.unshift(frameTime);
      this.frames.splice(100);
    ]] *)
Definition fps_render (clock : nat -> float) (w : World) : World :=
  let (now, w) := performance_now clock w in
  let frameTime := now - lastFrameTimeStamp w in
  let w := set_lastFrameTimeStamp now w in
  set_frames (record frameTime (frames w)) w.

(** The catch-up loop of one frame:
    [[
      while (delta > interval) {
        universe.tick();
        delta -= interval;
        let now = performance.now();
        tickTimes.unshift(now);
        tickTimes.splice(100);
        if (now - thisFrameStart > maxFrameTime) { break; }
      }
    ]]
    [fuel] bounds the number of passes; [None] means that the loop was still
    running when the fuel ran out. *)
Fixpoint renderLoop_while (clock : nat -> float) (fuel : nat)
    (thisFrameStart maxFrameTime : float) (w : World) : option World :=
  if Fgtb (delta w) (interval w) then
    match fuel with
    | O => None
    | S fuel' =>
        let w := call universe_tick w in
        let w := set_delta (delta w - interval w) w in
        let (now, w) := performance_now clock w in
        let w := set_tickTimes (record now (tickTimes w)) w in
        if Fgtb (now - thisFrameStart) maxFrameTime then Some w
        else renderLoop_while clock fuel' thisFrameStart maxFrameTime w
    end
  else Some w.

(** The test that sends a frame back to the [await] with [continue]:
    [paused || timeDiff < interval - delta]. *)
Definition skips (thisFrameStart : float) (w : World) : bool :=
  let timeDiff := thisFrameStart - lastFrameStart w in
  paused w || Fltb timeDiff (interval w - delta w).

(** One pass of the [while (true)] of [renderLoop]:
    [[
      const timeDiff = thisFrameStart - lastFrameStart;
      if (paused || timeDiff < interval - delta) { continue; }
      delta += timeDiff;
      lastFrameStart = thisFrameStart;
      const idleTime = thisFrameStart - lastFrameEnd;
      const maxFrameTime = Math.min(100, idleTime * 4);
      fps.render();
      while (delta > interval) { ... }
      delta = Math.min(interval, delta);
      drawCells();
      lastFrameEnd = performance.now();
    ]] *)
Definition renderLoop_frame (clock : nat -> float) (fuel : nat)
    (thisFrameStart : float) (w : World) : option World :=
  let timeDiff := thisFrameStart - lastFrameStart w in
  if paused w || Fltb timeDiff (interval w - delta w) then
    Some w (* continue *)
  else
    let w := set_delta (delta w + timeDiff) w in
    let w := set_lastFrameStart thisFrameStart w in
    let idleTime := thisFrameStart - lastFrameEnd w in
    let maxFrameTime := Math_min 100 (idleTime * 4) in
    let w := fps_render clock w in
    match renderLoop_while clock fuel thisFrameStart maxFrameTime w with
    | None => None
    | Some w =>
        let w := set_delta (Math_min (interval w) (delta w)) w in
        let w := call drawCells w in
        let (now, w) := performance_now clock w in
        Some (set_lastFrameEnd now w)
    end.

(** The page as it is when [renderLoop] reaches its first [await], as
    [page_load] above. *)
Definition page_load (clock : nat -> float) (raw : float) : World :=
  let w := mkWorld false 1 [] 0 0 0 [] 0 [] 0%nat in
  let w := playPause_click w in
  let w := rateSlider_input raw w in
  let (now, w) := performance_now clock w in
  let w := set_lastFrameTimeStamp now (set_frames [] w) in
  let (now, w) := performance_now clock w in
  let w := set_lastFrameStart now w in
  let w := set_delta 0 w in
  let w := call drawCells w in
  let w := set_tickTimes [] w in
  set_lastFrameEnd 0 w.

(** The earlier revision of [renderLoop]: [fps.render()] first, a budget of
    5 ms, no [tickTimes] and no [lastFrameEnd]:
    [[
      fps.render();
      delta += timeDiff;
      lastTime = time;
      while (delta > interval) {
        universe.tick();
        delta -= interval;
        if (performance.now() - time > 5) { break; }
      }
      delta = Math.min(interval, delta);
      drawCells();
    ]] *)
Fixpoint renderLoop_while_earlier (clock : nat -> float) (fuel : nat)
    (time : float) (w : World) : option World :=
  if Fgtb (delta w) (interval w) then
    match fuel with
    | O => None
    | S fuel' =>
        let w := call universe_tick w in
        let w := set_delta (delta w - interval w) w in
        let (now, w) := performance_now clock w in
        if Fgtb (now - time) 5 then Some w
        else renderLoop_while_earlier clock fuel' time w
    end
  else Some w.

Definition renderLoop_frame_earlier (clock : nat -> float) (fuel : nat)
    (time : float) (w : World) : option World :=
  let timeDiff := time - lastFrameStart w in
  if paused w || Fltb timeDiff (interval w - delta w) then
    Some w (* continue *)
  else
    let w := fps_render clock w in
    let w := set_delta (delta w + timeDiff) w in
    let w := set_lastFrameStart time w in
    match renderLoop_while_earlier clock fuel time w with
    | None => None
    | Some w =>
        let w := set_delta (Math_min (interval w) (delta w)) w in
        Some (call drawCells w)
    end.

(** *** Vocabulary of the properties *)

(** [x] and [y] are equal as numbers. *)
Definition Feqb (x y : float) : bool :=
  match x ?= y with
  | FEq => true
  | _ => false
  end.

(** A count as a number. *)
Fixpoint of_nat (n : nat) : float :=
  match n with
  | O => 0
  | S n' => of_nat n' + 1
  end.

(** The rational number that a finite binary64 number is. *)
Definition exact_value (x : float) : option Q :=
  match Prim2SF x with
  | S754_zero _ => Some 0%Q
  | S754_finite s m e =>
      Some ((if s then (-1) else 1) * inject_Z (Z.pos m) * Qpower 2 e)%Q
  | _ => None
  end.

(** The budget [maxFrameTime = Math.min(100, idleTime * 4)] of the frame that
    starts at [thisFrameStart]. *)
Definition maxFrameTime (thisFrameStart : float) (w : World) : float :=
  Math_min 100 ((thisFrameStart - lastFrameEnd w) * 4).

(** The debt with which the frame that starts at [thisFrameStart] enters its
    catch-up loop: [delta] after [delta += timeDiff]. *)
Definition debt (thisFrameStart : float) (w : World) : float :=
  delta w + (thisFrameStart - lastFrameStart w).

(** The state in which a frame that is not skipped enters its catch-up loop. *)
Definition loop_entry (clock : nat -> float) (thisFrameStart : float)
    (w : World) : World :=
  fps_render clock
    (set_lastFrameStart thisFrameStart
       (set_delta (delta w + (thisFrameStart - lastFrameStart w)) w)).

(** What a frame does after its catch-up loop: the clamp, [drawCells()] and
    [lastFrameEnd = performance.now()]. *)
Definition loop_exit (clock : nat -> float) (w : World) : World :=
  let w := set_delta (Math_min (interval w) (delta w)) w in
  let w := call drawCells w in
  let (now, w) := performance_now clock w in
  set_lastFrameEnd now w.

(** One pass of the catch-up loop, and [k] passes. *)
Definition pass (clock : nat -> float) (w : World) : World :=
  let w := call universe_tick w in
  let w := set_delta (delta w - interval w) w in
  let (now, w) := performance_now clock w in
  set_tickTimes (record now (tickTimes w)) w.

Fixpoint passes (clock : nat -> float) (k : nat) (w : World) : World :=
  match k with
  | O => w
  | S k' => passes clock k' (pass clock w)
  end.

(** The debt [d] after [k] times [delta -= interval], each subtraction
    rounded. *)
Fixpoint debt_after (i d : float) (k : nat) : float :=
  match k with
  | O => d
  | S k' => debt_after i (d - i) k'
  end.

(** The test [delta > interval] of the catch-up loop after [j] passes of the
    frame that starts at [thisFrameStart]. *)
Definition owed (thisFrameStart : float) (w : World) (j : nat) : bool :=
  Fgtb (debt_after (interval w) (debt thisFrameStart w) j) (interval w).

(** The test [now - thisFrameStart > maxFrameTime] at the end of pass number
    [j] (from 0) of that frame; [fps.render()] has read the clock once before
    the loop. *)
Definition overrun (clock : nat -> float) (thisFrameStart : float)
    (w : World) (j : nat) : bool :=
  Fgtb (clock (S (reads w) + j)%nat - thisFrameStart)
       (maxFrameTime thisFrameStart w).

(** After [n] passes the catch-up loop is over: the debt left no longer
    exceeds the interval, or the [n]-th pass has ended past the budget. *)
Definition stops_by (clock : nat -> float) (thisFrameStart : float)
    (w : World) (n : nat) : Prop :=
  owed thisFrameStart w n = false \/
  ((0 < n)%nat /\ overrun clock thisFrameStart w (n - 1) = true).

(** *** Concrete pages and clocks used as examples *)

(** The clock of a page that loads at time 0 and is woken again at [t0]: the
    two readings taken while loading are 0, the later ones follow [t0],
    1/1024 ms apart. *)
Definition clock_after (t0 : float) (n : nat) : float :=
  if (n <? 2)%nat then 0 else t0 + of_nat n / 1024.

(** The page loaded at time 0 with the slider at 25, that is at 1 Hz
    ([interval = 1000]), and set running by a click on the play/pause
    button. *)
Definition world_1Hz : World :=
  playPause_click (page_load (clock_after 5000) 25).

(** The same with the slider at 75: 445 Hz,
    [interval = 1000 / 445 = 2.2471910112359552]. *)
Definition world_445Hz : World :=
  playPause_click (page_load (clock_after 1000) 75).

(** A running page with the slider at 50 (112 Hz,
    [interval = 8.928571428571429]) whose last processed frame started at
    2.3 ms and left a debt of 0.2999999999999998 ms. *)
Definition world_tie : World :=
  mkWorld false (1000 / rateSlider_rate 50) [] 0 2.3 0.2999999999999998 [] 0
          [drawCells] 2%nat.

(** A running page with the slider at 100 (1000 Hz, [interval = 1]) that has
    processed no frame yet, and a clock that stands still at 2^60 ms. *)
Definition world_1000Hz : World :=
  playPause_click (page_load (fun _ => 0) 100).

Definition clock_still (n : nat) : float := 1152921504606846976.

(** A running page at 1 Hz whose last processed frame started at 250 ms and
    left a debt of 250 ms. *)
Definition world_exact_tie : World :=
  mkWorld false 1000 [] 0 250 250 [] 0 [drawCells] 2%nat.

End Binary64.

Arguments record : simpl never.
Arguments nq : simpl never.

(** * Properties *)

(** ** Numbers *)

(** [lra] reads [x / c] as an unknown; a division by a constant is turned
    into the product by its inverse first. *)
Ltac const_inv :=
  unfold Qdiv in *;
  repeat match goal with
  | |- context [ / (?n # ?d) ] =>
      let v := eval vm_compute in (/ (n # d)) in change (/ (n # d)) with v
  | H : context [ / (?n # ?d) ] |- _ =>
      let v := eval vm_compute in (/ (n # d)) in
      change (/ (n # d)) with v in H
  end.

Ltac qlra := const_inv; lra.

Lemma Qltb_spec (x y : Q) : BoolSpec (x < y) (y <= x) (Qltb x y).
Proof.
  unfold Qltb. destruct (Qle_bool y x) eqn:E; simpl; constructor.
  - now apply Qle_bool_iff.
  - apply Qnot_le_lt. intro H. apply Qle_bool_iff in H. congruence.
Qed.

Lemma Qltb_true (x y : Q) : x < y -> Qltb x y = true.
Proof. intro H. destruct (Qltb_spec x y); [reflexivity | lra]. Qed.

Lemma Qltb_false (x y : Q) : y <= x -> Qltb x y = false.
Proof. intro H. destruct (Qltb_spec x y); [lra | reflexivity]. Qed.

Lemma Qgtb_true (x y : Q) : y < x -> Qgtb x y = true.
Proof. apply Qltb_true. Qed.

Lemma Qgtb_false (x y : Q) : x <= y -> Qgtb x y = false.
Proof. apply Qltb_false. Qed.

Lemma Math_min_le_l (x y : Q) : Math_min x y <= x.
Proof. unfold Math_min. destruct (Qltb_spec y x); lra. Qed.

Lemma Math_min_le_r (x y : Q) : Math_min x y <= y.
Proof. unfold Math_min. destruct (Qltb_spec y x); lra. Qed.

Lemma Math_min_glb (x y z : Q) : z <= x -> z <= y -> z <= Math_min x y.
Proof. unfold Math_min. destruct (Qltb_spec y x); lra. Qed.

Lemma Math_min_l (x y : Q) : x <= y -> Math_min x y == x.
Proof. unfold Math_min. destruct (Qltb_spec y x); lra. Qed.

Lemma Math_min_r (x y : Q) : y <= x -> Math_min x y == y.
Proof. unfold Math_min. destruct (Qltb_spec y x); lra. Qed.

Lemma Math_min_cases (x y : Q) :
  (x <= y /\ Math_min x y == x) \/ (y < x /\ Math_min x y == y).
Proof.
  unfold Math_min. destruct (Qltb_spec y x); [right | left]; split;
    solve [assumption | reflexivity].
Qed.

Lemma nq_S (n : nat) : nq (S n) == nq n + 1.
Proof.
  unfold nq. rewrite Nat2Z.inj_succ, <- Z.add_1_r, inject_Z_plus. reflexivity.
Qed.

Lemma nq_0 : nq 0 == 0.
Proof. reflexivity. Qed.

Lemma nq_add (n m : nat) : nq (n + m) == nq n + nq m.
Proof. unfold nq. rewrite Nat2Z.inj_add, inject_Z_plus. reflexivity. Qed.

Lemma nq_nonneg (n : nat) : 0 <= nq n.
Proof.
  unfold nq. change 0 with (inject_Z 0). rewrite <- Zle_Qle. lia.
Qed.

Lemma nq_le (n m : nat) : (n <= m)%nat -> nq n <= nq m.
Proof. intro H. unfold nq. rewrite <- Zle_Qle. lia. Qed.

Lemma nq_double (j : nat) : nq (2 * j) == 2 * nq j.
Proof.
  unfold nq. rewrite Nat2Z.inj_mul, inject_Z_mult. reflexivity.
Qed.

Lemma even_double (j : nat) : Nat.even (2 * j) = true.
Proof. apply Nat.even_spec. now exists j. Qed.

Lemma even_succ_double (j : nat) : Nat.even (S (2 * j)) = false.
Proof.
  rewrite Nat.even_succ. unfold Nat.odd. now rewrite even_double.
Qed.

(** ** The rate slider *)

Lemma rate_low_lt_1 (a : Q) : a < 25 -> rate_low a < 1.
Proof. unfold rate_low. intro H. qlra. Qed.

Lemma rate_low_mono (a b : Q) : a <= b -> rate_low a <= rate_low b.
Proof. unfold rate_low. intro H. qlra. Qed.

Lemma rate_high_mono (a b : Q) :
  25 <= a -> a <= b -> rate_high a <= rate_high b.
Proof.
  intros Ha Hab. unfold rate_high, Math_pow2.
  assert (H0 : 0 <= (a - 25) / 75) by qlra.
  assert (H1 : (a - 25) / 75 <= (b - 25) / 75) by qlra.
  set (x := (a - 25) / 75) in *. set (y := (b - 25) / 75) in *.
  simpl. nra.
Qed.

Lemma rate_high_ge_1 (a : Q) : 1 <= rate_high a.
Proof.
  unfold rate_high, Math_pow2. set (x := (a - 25) / 75). simpl. nra.
Qed.

(** The slider never yields a rate below 0.2 on its range, so the interval
    [1000 / rate] is positive. *)
Lemma rateSlider_rate_pos (raw : Q) : 0 <= raw -> 0.2 <= rateSlider_rate raw.
Proof.
  intro H. unfold rateSlider_rate. destruct (Qltb_spec raw 25).
  - unfold rate_low. qlra.
  - pose proof (rate_high_ge_1 raw). lra.
Qed.

Lemma rateSlider_interval_pos (raw : Q) :
  0 <= raw -> 0 < 1000 / rateSlider_rate raw.
Proof.
  intro H. pose proof (rateSlider_rate_pos raw H) as Hr.
  apply Qlt_shift_div_l; lra.
Qed.

(** ** Sample windows *)

Lemma firstn_app_firstn (n : nat) (l m : list Q) :
  firstn n (l ++ firstn n m) = firstn n (l ++ m).
Proof.
  rewrite !firstn_app, firstn_firstn.
  rewrite Nat.min_l by lia. reflexivity.
Qed.

Lemma record_length (x : Q) (a : list Q) : (length (record x a) <= 100)%nat.
Proof. unfold record, splice. apply firstn_le_length. Qed.

(** Recording into a window keeps the newest 100 of all the samples seen. *)
Lemma recordAll_firstn (xs a : list Q) :
  recordAll xs (firstn 100 a) = firstn 100 (rev xs ++ a).
Proof.
  revert a. induction xs as [|x xs IH]; intro a.
  - reflexivity.
  - change (recordAll (x :: xs) (firstn 100 a))
      with (recordAll xs (firstn 100 ([x] ++ firstn 100 a))).
    rewrite firstn_app_firstn.
    change ([x] ++ a) with (x :: a). rewrite IH.
    change (rev (x :: xs)) with (rev xs ++ [x]).
    rewrite <- app_assoc. reflexivity.
Qed.

Lemma recordAll_empty (xs : list Q) : recordAll xs [] = firstn 100 (rev xs).
Proof.
  change (@nil Q) with (firstn 100 (@nil Q)) at 1.
  rewrite recordAll_firstn, app_nil_r. reflexivity.
Qed.

Lemma recordAll_length (xs a : list Q) :
  (length a <= 100)%nat -> (length (recordAll xs a) <= 100)%nat.
Proof.
  revert a. induction xs as [|x xs IH]; intros a H; [exact H|].
  change (recordAll (x :: xs) a) with (recordAll xs (record x a)).
  apply IH, record_length.
Qed.

(** ** One frame of [renderLoop] *)

Section WithClock.

(** The readings of [performance.now()]. *)
Variable clock : nat -> Q.

Lemma renderLoop_while_eq (fuel : nat) (t m : Q) (w : World) :
  renderLoop_while clock (S fuel) t m w =
  if Qgtb (delta w) (interval w) then
    if Qgtb (clock (reads w) - t) m then Some (pass clock w)
    else renderLoop_while clock fuel t m (pass clock w)
  else Some w.
Proof. reflexivity. Qed.

Lemma renderLoop_while_done (fuel : nat) (t m : Q) (w : World) :
  delta w <= interval w -> renderLoop_while clock fuel t m w = Some w.
Proof.
  intro H. destruct fuel; simpl; rewrite (Qgtb_false _ _ H); reflexivity.
Qed.

Lemma renderLoop_frame_skip (fuel : nat) (t : Q) (w : World) :
  skips t w = true -> renderLoop_frame clock fuel t w = Some w.
Proof.
  unfold skips, renderLoop_frame. cbv zeta. intros ->. reflexivity.
Qed.

Lemma renderLoop_frame_run (fuel : nat) (t : Q) (w : World) :
  skips t w = false ->
  renderLoop_frame clock fuel t w =
  option_map (loop_exit clock)
    (renderLoop_while clock fuel t (maxFrameTime t w) (loop_entry clock t w)).
Proof.
  unfold skips, renderLoop_frame. cbv zeta. intros ->.
  change (Math_min 100
            ((t - lastFrameEnd
                    (set_lastFrameStart t
                       (set_delta (delta w + (t - lastFrameStart w)) w))) * 4))
    with (maxFrameTime t w).
  fold (loop_entry clock t w).
  destruct (renderLoop_while clock fuel t (maxFrameTime t w)
              (loop_entry clock t w)); reflexivity.
Qed.

(** More fuel does not change what the catch-up loop returns. *)
Lemma renderLoop_while_mono (t m : Q) (fuel fuel' : nat) (w w' : World) :
  renderLoop_while clock fuel t m w = Some w' ->
  (fuel <= fuel')%nat ->
  renderLoop_while clock fuel' t m w = Some w'.
Proof.
  revert fuel' w. induction fuel as [|fuel IH]; intros fuel' w H Hle.
  - simpl in H. destruct (Qltb_spec (interval w) (delta w)) as [Hgt|Hle'].
    + unfold Qgtb in H. rewrite (Qltb_true _ _ Hgt) in H. discriminate.
    + rewrite renderLoop_while_done by exact Hle'.
      unfold Qgtb in H. rewrite (Qltb_false _ _ Hle') in H. exact H.
  - destruct fuel' as [|fuel']; [lia|].
    rewrite renderLoop_while_eq in *.
    destruct (Qgtb (delta w) (interval w)); [|exact H].
    destruct (Qgtb (clock (reads w) - t) m); [exact H|].
    apply IH; [exact H | lia].
Qed.

Lemma renderLoop_frame_mono (t : Q) (fuel fuel' : nat) (w w' : World) :
  renderLoop_frame clock fuel t w = Some w' ->
  (fuel <= fuel')%nat ->
  renderLoop_frame clock fuel' t w = Some w'.
Proof.
  intros H Hle. destruct (skips t w) eqn:E.
  - rewrite renderLoop_frame_skip in * by exact E. exact H.
  - rewrite renderLoop_frame_run in * by exact E.
    destruct (renderLoop_while clock fuel t (maxFrameTime t w)
                (loop_entry clock t w)) as [w1|] eqn:E1; [|discriminate].
    rewrite (renderLoop_while_mono _ _ _ _ _ _ E1 Hle). exact H.
Qed.

(** The catch-up loop stops: with a positive interval, fuel for
    [delta / interval] passes is enough. *)
Lemma renderLoop_while_stops (t m : Q) (fuel : nat) (w : World) :
  delta w <= interval w * (1 + nq fuel) ->
  exists w', renderLoop_while clock fuel t m w = Some w'.
Proof.
  revert w. induction fuel as [|fuel IH]; intros w H.
  - exists w. apply renderLoop_while_done. rewrite nq_0 in H. lra.
  - rewrite renderLoop_while_eq.
    destruct (Qgtb (delta w) (interval w)); [|eauto].
    destruct (Qgtb (clock (reads w) - t) m); [eauto|].
    apply IH. rewrite nq_S in H. simpl. lra.
Qed.

Lemma enough_fuel (d i : Q) : 0 < i -> exists fuel, d <= i * (1 + nq fuel).
Proof.
  intro Hi. exists (Z.to_nat (Qceiling (d / i))).
  assert (H1 : d / i <= nq (Z.to_nat (Qceiling (d / i)))).
  { eapply Qle_trans; [apply Qle_ceiling|].
    unfold nq. rewrite <- Zle_Qle. lia. }
  assert (H2 : d == d / i * i) by (field; lra).
  set (q := d / i) in *. set (n := nq (Z.to_nat (Qceiling q))) in *.
  rewrite H2. nra.
Qed.

Lemma repeat_app_cons (c : Call) (k : nat) (l : list Call) :
  repeat c k ++ c :: l = c :: repeat c k ++ l.
Proof. induction k as [|k IH]; simpl; [reflexivity | now rewrite IH]. Qed.

Lemma passes_none (t m : Q) (w : World) :
  delta w <= interval w -> passes clock t m 0 w w.
Proof.
  intro H. constructor; try reflexivity.
  - rewrite nq_0. lra.
  - intros j Hj. lia.
  - intros j Hj. lia.
  - left. exact H.
Qed.

Lemma passes_one (t m : Q) (w : World) :
  interval w < delta w ->
  m < clock (reads w) - t ->
  passes clock t m 1 w (pass clock w).
Proof.
  intros Hgt Hbreak. constructor; try reflexivity.
  - simpl. change (nq 1) with 1. lra.
  - intros j Hj. assert (j = 0%nat) as -> by lia. rewrite nq_0. lra.
  - intros j Hj. lia.
  - right. split; [lia|]. simpl. rewrite Nat.add_0_r. exact Hbreak.
Qed.

Lemma passes_more (t m : Q) (k : nat) (w w' : World) :
  interval w < delta w ->
  clock (reads w) - t <= m ->
  passes clock t m k (pass clock w) w' ->
  passes clock t m (S k) w w'.
Proof.
  intros Hgt Hin [Hc Hr Hd Ht Hp Hi Hf Hs Hst He Hent Hwi Hex].
  simpl in *. constructor; try assumption.
  - rewrite Hc. simpl. apply repeat_app_cons.
  - rewrite Hr. simpl. lia.
  - rewrite Hd, nq_S. lra.
  - intros [|j] Hj.
    + rewrite nq_0. lra.
    + specialize (Hent j ltac:(lia)). rewrite nq_S. lra.
  - intros [|j] Hj.
    + rewrite Nat.add_0_r. exact Hin.
    + specialize (Hwi j ltac:(lia)).
      replace (reads w + S j)%nat with (S (reads w + j)) by lia. exact Hwi.
  - destruct Hex as [Hex|[Hk Hex]]; [left; exact Hex|right].
    split; [lia|].
    replace (reads w + (S k - 1))%nat with (S (reads w + (k - 1))) by lia.
    exact Hex.
Qed.

(** Whatever the catch-up loop returns, it got there by [k] passes. *)
Lemma renderLoop_while_passes (t m : Q) (fuel : nat) (w w' : World) :
  renderLoop_while clock fuel t m w = Some w' ->
  exists k, (k <= fuel)%nat /\ passes clock t m k w w'.
Proof.
  revert w. induction fuel as [|fuel IH]; intros w H.
  - simpl in H. destruct (Qltb_spec (interval w) (delta w)) as [Hgt|Hle].
    + unfold Qgtb in H. rewrite (Qltb_true _ _ Hgt) in H. discriminate.
    + unfold Qgtb in H. rewrite (Qltb_false _ _ Hle) in H.
      injection H as <-. exists 0%nat. split; [lia|].
      now apply passes_none.
  - rewrite renderLoop_while_eq in H. unfold Qgtb in H.
    destruct (Qltb_spec (interval w) (delta w)) as [Hgt|Hle].
    + destruct (Qltb_spec m (clock (reads w) - t)) as [Hbr|Hin].
      * injection H as <-. exists 1%nat. split; [lia|].
        now apply passes_one.
      * destruct (IH _ H) as (k & Hk & Hp). exists (S k). split; [lia|].
        now apply passes_more.
    + injection H as <-. exists 0%nat. split; [lia|].
      now apply passes_none.
Qed.

Lemma ticks_repeat (k : nat) (l : list Call) :
  length (filter is_tick (repeat universe_tick k ++ l)) =
  (k + length (filter is_tick l))%nat.
Proof. induction k as [|k IH]; simpl; [reflexivity | now rewrite IH]. Qed.

Lemma draws_repeat (k : nat) (l : list Call) :
  filter is_draw (repeat universe_tick k ++ l) = filter is_draw l.
Proof. induction k as [|k IH]; simpl; [reflexivity | exact IH]. Qed.

(** The calls a frame makes when its catch-up loop takes [k] passes. *)
Lemma passes_exit_calls (t m : Q) (k : nat) (w w1 : World) :
  passes clock t m k (loop_entry clock t w) w1 ->
  calls (loop_exit clock w1) =
  drawCells :: repeat universe_tick k ++ calls w.
Proof. intros [Hc _ _ _ _ _ _ _ _ _ _ _ _]. simpl. now rewrite Hc. Qed.

Lemma passes_exit_ticks (t m : Q) (k : nat) (w w1 : World) :
  passes clock t m k (loop_entry clock t w) w1 ->
  ticks (loop_exit clock w1) = (k + ticks w)%nat.
Proof.
  intro H. unfold ticks. rewrite (passes_exit_calls _ _ _ _ _ H).
  simpl. apply ticks_repeat.
Qed.

(** A frame that is not skipped enters its loop owing at least one
    interval. *)
Lemma loop_entry_delta (t : Q) (w : World) :
  skips t w = false -> interval w <= delta (loop_entry clock t w).
Proof.
  unfold skips. intro H. apply orb_false_elim in H as [_ H].
  destruct (Qltb_spec (t - lastFrameStart w) (interval w - delta w));
    [discriminate|].
  simpl. lra.
Qed.

(** The debt is positive when the catch-up loop is left. *)
Lemma passes_delta_pos (t m : Q) (k : nat) (w w1 : World) :
  0 < interval w ->
  skips t w = false ->
  passes clock t m k (loop_entry clock t w) w1 ->
  0 < delta w1.
Proof.
  intros Hi Hs H. pose proof (loop_entry_delta t w Hs) as He.
  pose proof (ps_delta _ _ _ _ _ _ H) as Hd.
  pose proof (ps_entered _ _ _ _ _ _ H) as Hent.
  change (interval (loop_entry clock t w)) with (interval w) in *.
  destruct k as [|k].
  - rewrite nq_0 in Hd. lra.
  - specialize (Hent k ltac:(lia)). rewrite nq_S in Hd. lra.
Qed.

(** Every frame returns, given fuel for the passes of its catch-up loop. *)
Lemma renderLoop_frame_total (t : Q) (w : World) :
  0 < interval w ->
  exists fuel w',
    (forall fuel', (fuel <= fuel')%nat ->
       renderLoop_frame clock fuel' t w = Some w') /\
    (skips t w = true -> w' = w) /\
    (skips t w = false ->
       exists k w1,
         passes clock t (maxFrameTime t w) k (loop_entry clock t w) w1 /\
         w' = loop_exit clock w1).
Proof.
  intro Hi. destruct (skips t w) eqn:Hs.
  - exists 0%nat, w. split; [|split]; [| reflexivity | discriminate].
    intros fuel' _. now apply renderLoop_frame_skip.
  - destruct (enough_fuel (delta (loop_entry clock t w)) (interval w) Hi)
      as [fuel Hf].
    destruct (renderLoop_while_stops t (maxFrameTime t w) fuel
                (loop_entry clock t w) Hf) as [w1 Hw1].
    destruct (renderLoop_while_passes _ _ _ _ _ Hw1) as (k & _ & Hp).
    exists fuel, (loop_exit clock w1). split; [|split].
    + intros fuel' Hle. rewrite renderLoop_frame_run by exact Hs.
      now rewrite (renderLoop_while_mono _ _ _ _ _ _ Hw1 Hle).
    + discriminate.
    + intros _. exists k, w1. split; [exact Hp | reflexivity].
Qed.

(** What a frame that returns leaves in [interval] and [delta]. *)
Lemma renderLoop_frame_bounds (fuel : nat) (t : Q) (w w' : World) :
  0 < interval w ->
  0 <= delta w ->
  renderLoop_frame clock fuel t w = Some w' ->
  interval w' = interval w /\
  0 <= delta w' /\
  (skips t w = false -> 0 < delta w' /\ delta w' <= interval w').
Proof.
  intros Hi Hd H. destruct (skips t w) eqn:Hs.
  - rewrite renderLoop_frame_skip in H by exact Hs. injection H as <-.
    repeat split; [exact Hd | discriminate | discriminate].
  - rewrite renderLoop_frame_run in H by exact Hs.
    destruct (renderLoop_while clock fuel t (maxFrameTime t w)
                (loop_entry clock t w)) as [w1|] eqn:E; [|discriminate].
    injection H as <-.
    destruct (renderLoop_while_passes _ _ _ _ _ E) as (k & _ & Hp).
    pose proof (passes_delta_pos _ _ _ _ _ Hi Hs Hp) as Hpos.
    pose proof (ps_interval _ _ _ _ _ _ Hp) as Hint.
    change (interval (loop_entry clock t w)) with (interval w) in Hint.
    assert (Hmin : 0 < Math_min (interval w1) (delta w1)).
    { unfold Math_min. destruct (Qltb (delta w1) (interval w1)).
      - exact Hpos.
      - rewrite Hint. exact Hi. }
    simpl. split; [exact Hint|]. split; [lra|]. intros _.
    split; [exact Hmin | apply Math_min_le_l].
Qed.

(** Every event is handled, and leaves a positive interval and a
    non-negative debt. *)
Lemma handle_total (e : Event) (w : World) :
  0 < interval w ->
  0 <= delta w ->
  slider_range e ->
  exists fuel w',
    (forall fuel', (fuel <= fuel')%nat -> handle clock fuel' e w = Some w') /\
    0 < interval w' /\ 0 <= delta w'.
Proof.
  intros Hi Hd Hr. destruct e as [t| |raw| |row col]; simpl.
  - destruct (renderLoop_frame_total t w Hi) as (fuel & w' & H & _).
    exists fuel, w'. split; [exact H|].
    destruct (renderLoop_frame_bounds fuel t w w' Hi Hd
                (H fuel (Nat.le_refl fuel))) as (Hint & Hd' & _).
    rewrite Hint. split; assumption.
  - exists 0%nat, (playPause_click w). repeat split; assumption.
  - exists 0%nat, (rateSlider_input raw w). repeat split; [|exact Hd].
    simpl. apply rateSlider_interval_pos. simpl in Hr. tauto.
  - exists 0%nat, (clear_click w). repeat split; assumption.
  - exists 0%nat, (canvas_click row col w). repeat split; assumption.
Qed.

Lemma run_total (es : list Event) (w : World) :
  0 < interval w ->
  0 <= delta w ->
  Forall slider_range es ->
  exists fuel w',
    (forall fuel', (fuel <= fuel')%nat -> run clock fuel' es w = Some w') /\
    0 < interval w' /\ 0 <= delta w'.
Proof.
  intros Hi Hd Hes. revert w Hi Hd.
  induction Hes as [|e es He Hes IH]; intros w Hi Hd.
  - exists 0%nat, w. repeat split; assumption.
  - destruct (handle_total e w Hi Hd He) as (f1 & w1 & H1 & Hi1 & Hd1).
    destruct (IH w1 Hi1 Hd1) as (f2 & w2 & H2 & Hi2 & Hd2).
    exists (Nat.max f1 f2), w2. split; [|split; assumption].
    intros fuel' Hle. simpl.
    rewrite (H1 fuel') by lia. apply H2. lia.
Qed.

(** ** The sample windows of the page and the page when it starts *)

(** No frame lets [fps.frames] or [tickTimes] grow beyond 100 samples. *)
Lemma renderLoop_frame_windows (fuel : nat) (t : Q) (w w' : World) :
  (length (frames w) <= 100)%nat ->
  (length (tickTimes w) <= 100)%nat ->
  renderLoop_frame clock fuel t w = Some w' ->
  (length (frames w') <= 100)%nat /\ (length (tickTimes w') <= 100)%nat.
Proof.
  intros Hf Ht H. destruct (skips t w) eqn:Hs.
  - rewrite renderLoop_frame_skip in H by exact Hs. injection H as <-.
    split; assumption.
  - rewrite renderLoop_frame_run in H by exact Hs.
    destruct (renderLoop_while clock fuel t (maxFrameTime t w)
                (loop_entry clock t w)) as [w1|] eqn:E; [|discriminate].
    injection H as <-.
    destruct (renderLoop_while_passes _ _ _ _ _ E) as (k & _ & P).
    change (frames (loop_exit clock w1)) with (frames w1).
    change (tickTimes (loop_exit clock w1)) with (tickTimes w1).
    rewrite (ps_frames _ _ _ _ _ _ P), (ps_tickTimes _ _ _ _ _ _ P). split.
    + apply record_length.
    + apply recordAll_length. exact Ht.
Qed.

Lemma page_load_ready (raw : Q) :
  0 <= raw ->
  let w := page_load clock raw in
  paused w = true /\ 0 < interval w /\ delta w = 0 /\
  frames w = [] /\ tickTimes w = [] /\ calls w = [drawCells].
Proof.
  intro H. repeat split. simpl. now apply rateSlider_interval_pos.
Qed.

(** ** Frames every 16.7 ms at 30 Hz *)

(** The frame number [2 j + 1] comes too early and is skipped. *)
Lemma in_phase_skip (t0 : Q) (j : nat) (w : World) :
  (j <= 249)%nat ->
  in_phase t0 (2 * j) w ->
  skips (t0 + nq (S (2 * j)) * 16.7) w = true.
Proof.
  intros Hj (Hp & Hi & Hd & Hl). rewrite Nat.div2_double in Hd, Hl.
  unfold skips. rewrite Hp, orb_false_l. apply Qltb_true.
  pose proof (nq_le _ _ Hj) as Hq. change (nq 249) with 249 in Hq.
  pose proof (nq_nonneg j).
  rewrite nq_S, nq_double, Hi, Hd, Hl. qlra.
Qed.

(** The frame number [2 j + 2] is processed and takes exactly one step. *)
Lemma in_phase_run (fuel : nat) (t0 : Q) (j : nat) (w : World) :
  (j <= 249)%nat ->
  in_phase t0 (S (2 * j)) w ->
  exists w',
    renderLoop_frame clock (S fuel) (t0 + nq (S (S (2 * j))) * 16.7) w =
    Some w' /\
    ticks w' = S (ticks w) /\
    in_phase t0 (S (S (2 * j))) w'.
Proof.
  intros Hj (Hp & Hi & Hd & Hl). rewrite Nat.div2_succ_double in Hd, Hl.
  pose proof (nq_le _ _ Hj) as Hq. change (nq 249) with 249 in Hq.
  pose proof (nq_nonneg j) as Hq0.
  set (t := t0 + nq (S (S (2 * j))) * 16.7).
  assert (Ht : t - lastFrameStart w == 33.4).
  { unfold t. rewrite !nq_S, nq_double, Hl. qlra. }
  assert (Hs : skips t w = false).
  { unfold skips. rewrite Hp, orb_false_l. apply Qltb_false.
    rewrite Ht, Hi, Hd. qlra. }
  set (e := loop_entry clock t w).
  assert (He : delta e == nq j / 15 + 33.4) by (simpl; rewrite Ht, Hd; lra).
  assert (Hw : renderLoop_while clock (S fuel) t (maxFrameTime t w) e =
               Some (pass clock e)).
  { rewrite renderLoop_while_eq.
    rewrite Qgtb_true
      by (change (interval e) with (interval w); rewrite He, Hi; qlra).
    destruct (Qgtb (clock (reads e) - t) (maxFrameTime t w));
      [reflexivity|].
    apply renderLoop_while_done. simpl. rewrite Ht, Hd, Hi. qlra. }
  exists (loop_exit clock (pass clock e)).
  rewrite renderLoop_frame_run by exact Hs. fold e. rewrite Hw.
  split; [reflexivity|]. split; [reflexivity|].
  unfold in_phase.
  change (Nat.div2 (S (S (2 * j)))) with (S (Nat.div2 (2 * j))).
  rewrite Nat.div2_double.
  split; [exact Hp|]. split; [exact Hi|]. split.
  - simpl. rewrite Math_min_r; rewrite Ht, Hd, Hi, ?nq_S; qlra.
  - simpl. unfold t. rewrite !nq_S, nq_double. qlra.
Qed.

Lemma renderLoop_cons (fuel : nat) (t : Q) (ts : list Q) (w : World) :
  renderLoop clock fuel (t :: ts) w =
  match renderLoop_frame clock fuel t w with
  | None => None
  | Some w1 =>
      match renderLoop clock fuel ts w1 with
      | None => None
      | Some (ns, w2) => Some ((ticks w1 - ticks w)%nat :: ns, w2)
      end
  end.
Proof. reflexivity. Qed.

Lemma renderLoop_app (fuel : nat) (ts1 ts2 : list Q) (w : World) :
  renderLoop clock fuel (ts1 ++ ts2) w =
  match renderLoop clock fuel ts1 w with
  | None => None
  | Some (ns1, w1) =>
      match renderLoop clock fuel ts2 w1 with
      | None => None
      | Some (ns2, w2) => Some (ns1 ++ ns2, w2)
      end
  end.
Proof.
  revert w. induction ts1 as [|t ts1 IH]; intro w.
  - simpl. destruct (renderLoop clock fuel ts2 w) as [[ns2 w2]|]; reflexivity.
  - rewrite <- app_comm_cons, !renderLoop_cons.
    destruct (renderLoop_frame clock fuel t w) as [w1|]; [|reflexivity].
    rewrite IH.
    destruct (renderLoop clock fuel ts1 w1) as [[ns1 w1']|]; [|reflexivity].
    destruct (renderLoop clock fuel ts2 w1') as [[ns2 w2]|]; reflexivity.
Qed.

Lemma stamps_cons (t0 : Q) (k n : nat) :
  stamps t0 k (S n) = (t0 + nq k * 16.7) :: stamps t0 (S k) n.
Proof. reflexivity. Qed.

Lemma stamps_snoc (t0 : Q) (k n : nat) :
  stamps t0 k (S n) = stamps t0 k n ++ [t0 + nq (k + n) * 16.7].
Proof. unfold stamps. rewrite seq_S, map_app. reflexivity. Qed.

Lemma alternating_cons (k n : nat) :
  alternating k (S n) =
  (if Nat.even k then 1%nat else 0%nat) :: alternating (S k) n.
Proof. reflexivity. Qed.

(** As long as no more than 500 frames have come, the frames after the
    [k]-th take their steps in alternation. *)
Lemma alternation_run (fuel : nat) (t0 : Q) (n : nat) :
  forall (k : nat) (w : World),
    in_phase t0 k w ->
    (k + n <= 500)%nat ->
    exists w',
      renderLoop clock (S fuel) (stamps t0 (S k) n) w =
      Some (alternating (S k) n, w') /\
      in_phase t0 (k + n) w'.
Proof.
  induction n as [|n IH]; intros k w Hin Hkn.
  - exists w. rewrite Nat.add_0_r. split; [reflexivity | exact Hin].
  - rewrite stamps_cons, alternating_cons, renderLoop_cons.
    destruct (Nat.Even_or_Odd k) as [[j ->]|[j ->]].
    + (* an even number of frames so far: the next one is skipped *)
      rewrite renderLoop_frame_skip by (apply in_phase_skip; [lia|exact Hin]).
      destruct (IH (S (2 * j)) w) as (w' & Hw' & Hin'); [|lia|].
      { unfold in_phase in *.
        rewrite Nat.div2_succ_double. rewrite Nat.div2_double in Hin.
        exact Hin. }
      exists w'. rewrite Hw', Nat.sub_diag, even_succ_double.
      split; [reflexivity|].
      replace (2 * j + S n)%nat with (S (2 * j) + n)%nat by lia. exact Hin'.
    + (* an odd number of frames so far: the next one takes a step *)
      replace (2 * j + 1)%nat with (S (2 * j)) in * by lia.
      destruct (in_phase_run fuel t0 j w) as (w1 & Hw1 & Ht1 & Hin1);
        [lia | exact Hin |].
      rewrite Hw1.
      destruct (IH (S (S (2 * j))) w1 Hin1) as (w' & Hw' & Hin'); [lia|].
      exists w'. rewrite Hw', Ht1.
      replace (S (ticks w) - ticks w)%nat with 1%nat by lia.
      change (Nat.even (S (S (2 * j)))) with (Nat.even (2 * j)).
      rewrite even_double. split; [reflexivity|].
      replace (S (2 * j) + S n)%nat with (S (S (2 * j)) + n)%nat by lia.
      exact Hin'.
Qed.

(** After 500 frames the debt is 250 / 15 ms, and the frame number 501,
    only 16.7 ms after the frame number 500, is processed and takes a step. *)
Lemma in_phase_ends (fuel : nat) (t0 : Q) (w : World) :
  in_phase t0 500 w ->
  exists w',
    renderLoop_frame clock (S fuel) (t0 + nq 501 * 16.7) w = Some w' /\
    ticks w' = S (ticks w).
Proof.
  intros (Hp & Hi & Hd & Hl).
  change (Nat.div2 500) with 250%nat in Hd, Hl.
  change (nq 250) with 250 in Hd, Hl. change (nq 501) with 501.
  set (t := t0 + 501 * 16.7).
  assert (Ht : t - lastFrameStart w == 16.7) by (unfold t; rewrite Hl; lra).
  assert (Hs : skips t w = false).
  { unfold skips. rewrite Hp, orb_false_l. apply Qltb_false.
    rewrite Ht, Hi, Hd. qlra. }
  set (e := loop_entry clock t w).
  assert (Hw : renderLoop_while clock (S fuel) t (maxFrameTime t w) e =
               Some (pass clock e)).
  { rewrite renderLoop_while_eq.
    rewrite Qgtb_true by (simpl; rewrite Ht, Hi, Hd; qlra).
    destruct (Qgtb (clock (reads e) - t) (maxFrameTime t w));
      [reflexivity|].
    apply renderLoop_while_done. simpl. rewrite Ht, Hd, Hi. qlra. }
  exists (loop_exit clock (pass clock e)).
  rewrite renderLoop_frame_run by exact Hs. fold e. rewrite Hw.
  split; reflexivity.
Qed.

(** ** The earlier revision *)

(** The earlier catch-up loop is the latest one with the budget 5, less the
    recording in [tickTimes]. *)
Lemma renderLoop_while_earlier_eq (fuel : nat) (t : Q) :
  forall (w : World) (l : list Q),
    renderLoop_while_earlier clock fuel t (set_tickTimes l w) =
    option_map (set_tickTimes l) (renderLoop_while clock fuel t 5 w).
Proof.
  induction fuel as [|fuel IH]; intros w l.
  - simpl. destruct (Qgtb (delta w) (interval w)); reflexivity.
  - rewrite renderLoop_while_eq. simpl.
    destruct (Qgtb (delta w) (interval w)); [|reflexivity].
    destruct (Qgtb (clock (reads w) - t) 5); [reflexivity|].
    apply (IH (pass clock w) l).
Qed.

Lemma renderLoop_frame_earlier_skip (fuel : nat) (t : Q) (w : World) :
  skips t w = true -> renderLoop_frame_earlier clock fuel t w = Some w.
Proof.
  unfold skips, renderLoop_frame_earlier. cbv zeta. intros ->. reflexivity.
Qed.

Lemma renderLoop_frame_earlier_run (fuel : nat) (t : Q) (w : World) :
  skips t w = false ->
  renderLoop_frame_earlier clock fuel t w =
  option_map (fun w1 => loop_exit_earlier (set_tickTimes (tickTimes w) w1))
    (renderLoop_while clock fuel t 5 (loop_entry clock t w)).
Proof.
  unfold skips, renderLoop_frame_earlier. cbv zeta. intros ->.
  change (set_lastFrameStart t
            (set_delta (delta (fps_render clock w) + (t - lastFrameStart w))
               (fps_render clock w)))
    with (set_tickTimes (tickTimes w) (loop_entry clock t w)).
  rewrite renderLoop_while_earlier_eq.
  destruct (renderLoop_while clock fuel t 5 (loop_entry clock t w));
    reflexivity.
Qed.

(** X19.  The earlier revision, frame by frame: every frame returns, given
    fuel for the passes of its catch-up loop; a skipped frame changes nothing
    and requests no render; a processed frame makes [k] calls of
    [universe.tick()] and then one of [drawCells()], and leaves a debt above 0
    and at most one interval. *)
Lemma renderLoop_frame_earlier_total (t : Q) (w : World) :
  0 < interval w ->
  exists fuel w',
    (forall fuel', (fuel <= fuel')%nat ->
       renderLoop_frame_earlier clock fuel' t w = Some w') /\
    (skips t w = true -> w' = w) /\
    (skips t w = false ->
       exists k,
         calls w' = drawCells :: repeat universe_tick k ++ calls w /\
         0 < delta w' /\ delta w' <= interval w').
Proof.
  intro Hi. destruct (skips t w) eqn:Hs.
  - exists 0%nat, w. split; [|split]; [| reflexivity | discriminate].
    intros fuel' _. now apply renderLoop_frame_earlier_skip.
  - destruct (enough_fuel (delta (loop_entry clock t w)) (interval w) Hi)
      as [fuel Hf].
    destruct (renderLoop_while_stops t 5 fuel
                (loop_entry clock t w) Hf) as [w1 Hw1].
    destruct (renderLoop_while_passes _ _ _ _ _ Hw1) as (k & _ & P).
    exists fuel, (loop_exit_earlier (set_tickTimes (tickTimes w) w1)).
    split; [|split].
    + intros fuel' Hle. rewrite renderLoop_frame_earlier_run by exact Hs.
      now rewrite (renderLoop_while_mono _ _ _ _ _ _ Hw1 Hle).
    + discriminate.
    + intros _. exists k.
      pose proof (passes_delta_pos _ _ _ _ _ Hi Hs P) as Hpos.
      pose proof (ps_interval _ _ _ _ _ _ P) as Hint.
      change (interval (loop_entry clock t w)) with (interval w) in *.
      split; [|split].
      * simpl. now rewrite (ps_calls _ _ _ _ _ _ P).
      * simpl. unfold Math_min. destruct (Qltb (delta w1) (interval w1)).
        -- exact Hpos.
        -- rewrite Hint. exact Hi.
      * simpl. apply Math_min_le_l.
Qed.

End WithClock.

(** ** The claims *)

(** C2, as amended.  A frame that is skipped, because [paused] is set or
    because [timeDiff < interval - delta], changes nothing at all: [delta],
    [lastFrameStart] and the sample windows are as before, the automaton is
    not stepped, and no render is requested either; the loop goes back to
    waiting for the next frame. *)
Theorem skipped_frame_changes_nothing (clock : nat -> Q) (fuel : nat) (t : Q)
    (w : World) :
  paused w = true \/ t - lastFrameStart w < interval w - delta w ->
  exists w',
    renderLoop_frame clock fuel t w = Some w' /\
    delta w' = delta w /\
    lastFrameStart w' = lastFrameStart w /\
    frames w' = frames w /\
    tickTimes w' = tickTimes w /\
    ticks w' = ticks w /\
    draws w' = draws w /\
    w' = w.
Proof.
  intro H. exists w. repeat split.
  apply renderLoop_frame_skip. unfold skips.
  destruct H as [-> | H]; [reflexivity|].
  rewrite (Qltb_true _ _ H). apply orb_true_r.
Qed.

Lemma skipped_frame_changes_nothing_witness :
  (paused world_1Hz = true \/
   16.8 - lastFrameStart world_1Hz <
   interval world_1Hz - delta world_1Hz) /\
  exists w',
    renderLoop_frame clock_stall 1 16.8 world_1Hz = Some w' /\
    delta w' = delta world_1Hz /\
    lastFrameStart w' = lastFrameStart world_1Hz /\
    frames w' = frames world_1Hz /\
    tickTimes w' = tickTimes world_1Hz /\
    ticks w' = ticks world_1Hz /\
    draws w' = draws world_1Hz /\
    w' = world_1Hz.
Proof.
  assert (H : paused world_1Hz = true \/
              16.8 - lastFrameStart world_1Hz <
              interval world_1Hz - delta world_1Hz)
    by (right; reflexivity).
  exact (conj H
           (skipped_frame_changes_nothing clock_stall 1 16.8
              world_1Hz H)).
Defined.

(** C2, as stated, fails: a skipped frame requests no render.  On the page
    as it is loaded, which is paused, and on the page running at 1 Hz, a frame
    that arrives 16.7 ms after [lastFrameStart] is skipped, and [drawCells] has
    been called as often after it as before. *)
Lemma skipped_frame_requests_no_render :
  (skips 16.8 world_loaded = true /\
   ~ exists w',
       renderLoop_frame clock_stall 1 16.8 world_loaded = Some w' /\
       draws w' = S (draws world_loaded)) /\
  (skips 16.8 world_1Hz = true /\
   ~ exists w',
       renderLoop_frame clock_stall 1 16.8 world_1Hz = Some w' /\
       draws w' = S (draws world_1Hz)).
Proof.
  split; (split; [reflexivity|]); intros (w' & H & Hd);
    vm_compute in H; injection H as <-; vm_compute in Hd; discriminate.
Qed.

(** C3.  After any sequence of events (frames with any timestamps, clicks
    on the controls, slider positions between 0 and 100) from a state whose
    interval is positive and whose debt is not negative, and after one more
    frame, [delta] is at least 0; and when that frame was not skipped, so that
    it ran its catch-up pass, [delta] is at most [interval].  The timestamps
    need not even be ordered. *)
Theorem accumulator_bounds (clock : nat -> Q) (es : list Event) (t : Q)
    (w : World) :
  0 < interval w ->
  0 <= delta w ->
  Forall slider_range es ->
  exists fuel w1 w2,
    run clock fuel es w = Some w1 /\
    renderLoop_frame clock fuel t w1 = Some w2 /\
    0 <= delta w1 /\
    0 <= delta w2 /\
    (skips t w1 = false -> delta w2 <= interval w2).
Proof.
  intros Hi Hd Hes.
  destruct (run_total clock es w Hi Hd Hes) as (f1 & w1 & H1 & Hi1 & Hd1).
  destruct (renderLoop_frame_total clock t w1 Hi1) as (f2 & w2 & H2 & _).
  exists (Nat.max f1 f2), w1, w2.
  assert (Hr : run clock (Nat.max f1 f2) es w = Some w1) by (apply H1; lia).
  assert (Hf : renderLoop_frame clock (Nat.max f1 f2) t w1 = Some w2)
    by (apply H2; lia).
  destruct (renderLoop_frame_bounds _ _ _ _ _ Hi1 Hd1 Hf) as (_ & Hd2 & Hb).
  repeat split; try assumption. intro Hs. now apply Hb.
Qed.

Lemma accumulator_bounds_witness :
  0 < interval world_loaded /\
  0 <= delta world_loaded /\
  Forall slider_range history /\
  exists fuel w1 w2,
    run clock_stall fuel history world_loaded = Some w1 /\
    renderLoop_frame clock_stall fuel 5066.9 w1 = Some w2 /\
    0 <= delta w1 /\
    0 <= delta w2 /\
    (skips 5066.9 w1 = false -> delta w2 <= interval w2).
Proof.
  assert (Hi : 0 < interval world_loaded) by reflexivity.
  assert (Hd : 0 <= delta world_loaded) by (vm_compute; discriminate).
  assert (Hes : Forall slider_range history).
  { repeat constructor; vm_compute; discriminate. }
  exact (conj Hi (conj Hd (conj Hes
           (accumulator_bounds clock_stall history 5066.9 world_loaded
              Hi Hd Hes)))).
Defined.

(** C4.  While [paused] is set no frame steps the automaton: over any
    sequence of frames, whatever their timestamps, every frame takes zero
    steps (and the state is left as it was). *)
Theorem paused_never_steps (clock : nat -> Q) (fuel : nat) (ts : list Q)
    (w : World) :
  paused w = true ->
  renderLoop clock fuel ts w = Some (repeat 0%nat (length ts), w).
Proof.
  intro Hp. induction ts as [|t ts IH]; [reflexivity|].
  simpl. rewrite renderLoop_frame_skip
    by (unfold skips; rewrite Hp; reflexivity).
  rewrite IH, Nat.sub_diag. reflexivity.
Qed.

Lemma paused_never_steps_witness :
  paused world_loaded = true /\
  renderLoop clock_stall 0 [16.8; 5016.8; 1000000] world_loaded =
  Some ([0%nat; 0%nat; 0%nat], world_loaded).
Proof.
  assert (H : paused world_loaded = true) by reflexivity.
  exact (conj H
           (paused_never_steps clock_stall 0 [16.8; 5016.8; 1000000]
              world_loaded H)).
Defined.

(** C6.  A sample window never holds more than 100 samples, whatever is
    recorded into it; a window that has received 150 samples holds exactly the
    100 newest, newest first (the reverse of their order of arrival), the 50
    oldest having been dropped. *)
Theorem window_bound (xs : list Q) :
  (length (recordAll xs []) <= 100)%nat /\
  (length xs = 150%nat ->
   recordAll xs [] = rev (skipn 50 xs) /\
   length (recordAll xs []) = 100%nat).
Proof.
  rewrite recordAll_empty. split.
  - apply firstn_le_length.
  - intro H. rewrite firstn_rev, H.
    change (150 - 100)%nat with 50%nat. split; [reflexivity|].
    rewrite length_rev, length_skipn, H. reflexivity.
Qed.

Lemma window_bound_witness :
  length samples150 = 150%nat /\
  recordAll samples150 [] = rev (skipn 50 samples150) /\
  length (recordAll samples150 []) = 100%nat.
Proof.
  assert (H : length samples150 = 150%nat) by reflexivity.
  exact (conj H (proj2 (window_bound samples150) H)).
Defined.

(** C7, as amended.  At 30 Hz ([interval = 1000 / 30]), unpaused and with no
    debt, frames that arrive every 16.7 ms alternate for the first 500 frames:
    the frames with odd numbers are skipped and take no step, those with even
    numbers take exactly one.  Each processed frame leaves 1/15 ms more debt
    than the one before, so the alternation does not go on for ever. *)
Theorem alternating_steps (clock : nat -> Q) (fuel : nat) (n : nat)
    (w : World) :
  paused w = false ->
  interval w == 1000 / 30 ->
  delta w == 0 ->
  (n <= 500)%nat ->
  exists w',
    renderLoop clock (S fuel) (stamps (lastFrameStart w) 1 n) w =
    Some (alternating 1 n, w').
Proof.
  intros Hp Hi Hd Hn.
  destruct (alternation_run clock fuel (lastFrameStart w) n 0 w)
    as (w' & Hw' & _); [|lia|].
  - unfold in_phase. change (Nat.div2 0) with 0%nat. rewrite nq_0.
    repeat split; [exact Hp | exact Hi | rewrite Hd; reflexivity | lra].
  - exists w'. exact Hw'.
Qed.

Lemma alternating_steps_witness :
  paused world_30Hz = false /\
  interval world_30Hz == 1000 / 30 /\
  delta world_30Hz == 0 /\
  (6 <= 500)%nat /\
  exists w',
    renderLoop clock_60Hz 1 (stamps (lastFrameStart world_30Hz) 1 6)
      world_30Hz =
    Some (alternating 1 6, w').
Proof.
  assert (Hp : paused world_30Hz = false) by reflexivity.
  assert (Hi : interval world_30Hz == 1000 / 30) by reflexivity.
  assert (Hd : delta world_30Hz == 0) by reflexivity.
  assert (Hn : (6 <= 500)%nat) by lia.
  exact (conj Hp (conj Hi (conj Hd (conj Hn
           (alternating_steps clock_60Hz 0 6 world_30Hz Hp Hi Hd Hn))))).
Defined.

(** C7, as stated, fails: the alternation ends.  From the page at 30 Hz with
    no debt, the frame number 500 takes one step and so does the frame number
    501, which arrives 16.7 ms later: by then 250 / 15 ms of debt have built
    up, and 16.7 ms more reach the interval. *)
Lemma alternation_ends_at_frame_501 :
  paused world_30Hz = false /\
  interval world_30Hz == 1000 / 30 /\
  delta world_30Hz == 0 /\
  option_map (fun r => (nth 499 (fst r) 0%nat, nth 500 (fst r) 0%nat))
    (renderLoop clock_60Hz 1 (stamps (lastFrameStart world_30Hz) 1 501)
       world_30Hz) =
  Some (1%nat, 1%nat).
Proof.
  split; [reflexivity|]. split; [reflexivity|]. split; [reflexivity|].
  destruct (alternation_run clock_60Hz 0 (lastFrameStart world_30Hz) 500 0
              world_30Hz) as (w500 & H500 & Hin); [|lia|].
  { repeat split; reflexivity. }
  destruct (in_phase_ends clock_60Hz 0 _ _ Hin) as (w501 & H501 & Ht).
  rewrite stamps_snoc, renderLoop_app, H500, renderLoop_cons.
  change (nq (1 + 500)) with (nq 501). rewrite H501. simpl renderLoop.
  rewrite Ht. replace (S (ticks w500) - ticks w500)%nat with 1%nat by lia.
  reflexivity.
Qed.

(** C8.  The rate mapping takes the slider position 0 to 0.2 Hz and the
    position 100 to 1000 Hz; at the boundary 25 between its two branches the
    formula of the lower branch and the formula of the upper branch both give
    1 Hz, which is also the value of the mapping there, so the two pieces
    meet. *)
Theorem rate_mapping_ends_and_boundary :
  rateSlider_rate 0 == 0.2 /\
  rateSlider_rate 100 == 1000 /\
  rate_low 25 == 1 /\
  rate_high 25 == 1 /\
  rateSlider_rate 25 == 1.
Proof. repeat split; vm_compute; reflexivity. Qed.

(** C9.  The rate mapping is monotone on the range of the slider: for
    positions [a < b] between 0 and 100 the rate at [a] is at most the rate at
    [b], whether both lie on the linear branch, both on the quadratic branch,
    or one on each side of 25. *)
Theorem rate_mapping_monotone (a b : Q) :
  0 <= a -> a < b -> b <= 100 ->
  rateSlider_rate a <= rateSlider_rate b.
Proof.
  intros _ Hab _. unfold rateSlider_rate.
  destruct (Qltb_spec a 25) as [Ha|Ha]; destruct (Qltb_spec b 25) as [Hb|Hb].
  - apply rate_low_mono. lra.
  - pose proof (rate_low_lt_1 a Ha). pose proof (rate_high_ge_1 b). lra.
  - lra.
  - apply rate_high_mono; lra.
Qed.

Lemma rate_mapping_monotone_witness :
  0 <= 10 /\ 10 < 50 /\ 50 <= 100 /\
  rateSlider_rate 10 <= rateSlider_rate 50.
Proof.
  assert (H0 : 0 <= 10) by (vm_compute; discriminate).
  assert (H1 : 10 < 50) by reflexivity.
  assert (H2 : 50 <= 100) by (vm_compute; discriminate).
  exact (conj H0 (conj H1 (conj H2 (rate_mapping_monotone 10 50 H0 H1 H2)))).
Defined.

(** ** The catch-up loop on binary64 numbers *)

Section OnBinary64.

Import Binary64.
Local Open Scope float_scope.

Variable clock : nat -> float.

Lemma binary64_while_eq (fuel : nat) (t m : float) (w : World) :
  renderLoop_while clock (S fuel) t m w =
  if Fgtb (delta w) (interval w) then
    if Fgtb (clock (reads w) - t) m then Some (pass clock w)
    else renderLoop_while clock fuel t m (pass clock w)
  else Some w.
Proof. reflexivity. Qed.

Lemma binary64_while_done (fuel : nat) (t m : float) (w : World) :
  Fgtb (delta w) (interval w) = false ->
  renderLoop_while clock fuel t m w = Some w.
Proof. intro H. destruct fuel; simpl; rewrite H; reflexivity. Qed.

Lemma binary64_frame_skip (fuel : nat) (t : float) (w : World) :
  skips t w = true -> renderLoop_frame clock fuel t w = Some w.
Proof.
  unfold skips, renderLoop_frame. cbv zeta. intros ->. reflexivity.
Qed.

Lemma binary64_frame_run (fuel : nat) (t : float) (w : World) :
  skips t w = false ->
  renderLoop_frame clock fuel t w =
  option_map (loop_exit clock)
    (renderLoop_while clock fuel t (maxFrameTime t w) (loop_entry clock t w)).
Proof.
  unfold skips, renderLoop_frame. cbv zeta. intros ->.
  change (Math_min 100
            ((t - lastFrameEnd
                    (set_lastFrameStart t
                       (set_delta (delta w + (t - lastFrameStart w)) w))) * 4))
    with (maxFrameTime t w).
  fold (loop_entry clock t w).
  destruct (renderLoop_while clock fuel t (maxFrameTime t w)
              (loop_entry clock t w)); reflexivity.
Qed.

(** What [k] passes of the catch-up loop leave: [k] calls of
    [universe.tick()] more, and the debt after [k] rounded subtractions. *)
Lemma binary64_passes (k : nat) :
  forall w : World,
    interval (passes clock k w) = interval w /\
    delta (passes clock k w) = debt_after (interval w) (delta w) k /\
    calls (passes clock k w) = repeat universe_tick k ++ calls w /\
    reads (passes clock k w) = (k + reads w)%nat /\
    paused (passes clock k w) = paused w /\
    frames (passes clock k w) = frames w /\
    lastFrameTimeStamp (passes clock k w) = lastFrameTimeStamp w /\
    lastFrameStart (passes clock k w) = lastFrameStart w /\
    lastFrameEnd (passes clock k w) = lastFrameEnd w.
Proof.
  induction k as [|k IH]; intro w.
  - repeat split.
  - destruct (IH (pass clock w)) as (I & D & C & R & P & F & T & S' & E).
    cbn [passes]. rewrite I, D, C, R, P, F, T, S', E.
    repeat split.
    + simpl. apply repeat_app_cons.
    + simpl. lia.
Qed.

(** The catch-up loop runs until the debt no longer exceeds the interval or a
    pass ends past the budget, whichever comes first: when one of the two has
    happened by the [n]-th pass, the loop returns after [k <= n] passes, each
    of them entered with more than one interval of debt and none but the last
    ending past the budget. *)
Lemma binary64_while_spec (t m : float) (n : nat) :
  forall w : World,
    Fgtb (debt_after (interval w) (delta w) n) (interval w) = false \/
    ((0 < n)%nat /\ Fgtb (clock (reads w + (n - 1))%nat - t) m = true) ->
    exists k,
      (k <= n)%nat /\
      (forall fuel, (n <= fuel)%nat ->
         renderLoop_while clock fuel t m w = Some (passes clock k w)) /\
      (forall j, (j < k)%nat ->
         Fgtb (debt_after (interval w) (delta w) j) (interval w) = true) /\
      (forall j, (S j < k)%nat ->
         Fgtb (clock (reads w + j)%nat - t) m = false) /\
      (Fgtb (debt_after (interval w) (delta w) k) (interval w) = false \/
       ((0 < k)%nat /\ Fgtb (clock (reads w + (k - 1))%nat - t) m = true)).
Proof.
  induction n as [|n IH]; intros w Hstop.
  - exists 0%nat. destruct Hstop as [H|[H _]]; [|lia].
    split; [lia|]. split.
    { intros fuel _. now apply binary64_while_done. }
    split; [intros j Hj; lia|]. split; [intros j Hj; lia|]. now left.
  - destruct (Fgtb (delta w) (interval w)) eqn:E0.
    2:{ exists 0%nat. split; [lia|]. split.
        { intros fuel _. now apply binary64_while_done. }
        split; [intros j Hj; lia|]. split; [intros j Hj; lia|]. now left. }
    destruct (Fgtb (clock (reads w) - t) m) eqn:B0.
    { exists 1%nat. split; [lia|]. split.
      { intros [|fuel] Hf; [lia|]. rewrite binary64_while_eq, E0, B0.
        reflexivity. }
      split.
      { intros j Hj. assert (j = 0%nat) as -> by lia. exact E0. }
      split; [intros j Hj; lia|]. right. split; [lia|].
      simpl. now rewrite Nat.add_0_r. }
    destruct (IH (pass clock w)) as (k & Hk & Hrun & Hent & Hin & Hout).
    { change (interval (pass clock w)) with (interval w).
      change (delta (pass clock w)) with (delta w - interval w).
      change (reads (pass clock w)) with (S (reads w)).
      destruct Hstop as [H|[_ H]]; [now left|].
      destruct n as [|n].
      - simpl in H. rewrite Nat.add_0_r in H. congruence.
      - right. split; [lia|].
        replace (S (reads w) + (S n - 1))%nat
          with (reads w + (S (S n) - 1))%nat by lia.
        exact H. }
    change (interval (pass clock w)) with (interval w) in *.
    change (delta (pass clock w)) with (delta w - interval w) in *.
    change (reads (pass clock w)) with (S (reads w)) in *.
    exists (S k). split; [lia|]. split.
    { intros [|fuel] Hf; [lia|]. rewrite binary64_while_eq, E0, B0.
      apply Hrun. lia. }
    split.
    { intros [|j] Hj; [exact E0|]. apply (Hent j). lia. }
    split.
    { intros [|j] Hj.
      - now rewrite Nat.add_0_r.
      - replace (reads w + S j)%nat with (S (reads w) + j)%nat by lia.
        apply Hin. lia. }
    destruct Hout as [H|[Hpos H]]; [now left|]. right. split; [lia|].
    replace (reads w + (S k - 1))%nat with (S (reads w) + (k - 1))%nat by lia.
    exact H.
Qed.

(** Conversely, whatever the loop returns is the state after some number of
    passes, at least one when the loop was entered. *)
Lemma binary64_while_inv (t m : float) (fuel : nat) :
  forall w w' : World,
    renderLoop_while clock fuel t m w = Some w' ->
    exists k,
      w' = passes clock k w /\
      (Fgtb (delta w) (interval w) = true -> (0 < k)%nat).
Proof.
  induction fuel as [|fuel IH]; intros w w' H.
  - simpl in H. destruct (Fgtb (delta w) (interval w)); [discriminate|].
    injection H as <-. exists 0%nat. split; [reflexivity | discriminate].
  - rewrite binary64_while_eq in H.
    destruct (Fgtb (delta w) (interval w)).
    + destruct (Fgtb (clock (reads w) - t) m).
      * injection H as <-. exists 1%nat. split; [reflexivity | lia].
      * destruct (IH _ _ H) as (k & -> & _). exists (S k).
        split; [reflexivity | lia].
    + injection H as <-. exists 0%nat. split; [reflexivity | discriminate].
Qed.

(** The calls of a frame whose catch-up loop takes [k] passes. *)
Lemma binary64_exit_ticks (t : float) (k : nat) (w : World) :
  ticks (loop_exit clock (passes clock k (loop_entry clock t w))) =
  (k + ticks w)%nat.
Proof.
  destruct (binary64_passes k (loop_entry clock t w)) as (_ & _ & C & _).
  unfold ticks. simpl. rewrite C. simpl. apply ticks_repeat.
Qed.

Lemma binary64_exit_draws (t : float) (k : nat) (w : World) :
  draws (loop_exit clock (passes clock k (loop_entry clock t w))) =
  S (draws w).
Proof.
  destruct (binary64_passes k (loop_entry clock t w)) as (_ & _ & C & _).
  unfold draws. simpl. rewrite C. simpl. now rewrite draws_repeat.
Qed.

End OnBinary64.

(** ** The claims that rounding decides *)

Section ClaimsOnBinary64.

Import Binary64.
#[local] Set Warnings "-inexact-float".
Local Open Scope float_scope.







(** Without one of its two exits the loop does not stop.  On a clock that
    stands still no step ends past the budget, and a debt of 2^60 ms at
    [interval = 1] is not changed by [delta -= interval]: the frame is still
    in its loop whatever the fuel. *)
Lemma catch_up_needs_an_exit (fuel : nat) :
  debt 1152921504606846976 world_1000Hz - interval world_1000Hz =
  debt 1152921504606846976 world_1000Hz /\
  renderLoop_frame clock_still fuel 1152921504606846976 world_1000Hz = None.
Proof.
  split; [reflexivity|].
  rewrite binary64_frame_run by reflexivity.
  assert (H : forall w : World,
             delta w = 1152921504606846976 -> interval w = 1 ->
             renderLoop_while clock_still fuel 1152921504606846976
               (maxFrameTime 1152921504606846976 world_1000Hz) w = None).
  { induction fuel as [|fuel IH]; intros w Hd Hi.
    - cbn [renderLoop_while]. now rewrite Hd, Hi.
    - rewrite binary64_while_eq, Hd, Hi.
      change (Fgtb 1152921504606846976 1) with true. cbv iota.
      change (Fgtb (clock_still (reads w) - 1152921504606846976)
                (maxFrameTime 1152921504606846976 world_1000Hz))
        with false. cbv iota.
      apply IH.
      + change (delta (pass clock_still w)) with (delta w - interval w).
        rewrite Hd, Hi. reflexivity.
      + exact Hi. }
  rewrite H; reflexivity.
Qed.




(** The earlier revision has the same arithmetic: the stalled frame of C1
    takes four steps, the frame of C5 takes 445, and the frame of C10 takes
    one. *)
Lemma earlier_revision_alike :
  option_map (fun w' => (ticks w' - ticks world_1Hz)%nat)
    (renderLoop_frame_earlier (clock_after 5000) 10 5000 world_1Hz) =
  Some 4%nat /\
  option_map (fun w' => (ticks w' - ticks world_445Hz)%nat)
    (renderLoop_frame_earlier (clock_after 1000) 445 1000 world_445Hz) =
  Some 445%nat /\
  option_map (fun w' => (ticks w' - ticks world_tie)%nat)
    (renderLoop_frame_earlier (clock_after 10.92857142857143) 10
       10.92857142857143 world_tie) = Some 1%nat.
Proof.
  split; [reflexivity|]. split; [vm_compute; reflexivity | reflexivity].
Qed.

End ClaimsOnBinary64.

(** * Further properties of the code *)

(** ** The rate slider *)

(** X1.  On its range the slider gives rates from 0.2 to 1000 steps a second,
    so that [interval = 1000 / rate] lies between 1 and 5000 ms: the comment
    "Convert 0-25-100 to 0.2-1-1000" holds of the whole range. *)
Theorem rate_and_interval_range (raw : Q) :
  0 <= raw <= 100 ->
  0.2 <= rateSlider_rate raw <= 1000 /\
  1 <= 1000 / rateSlider_rate raw <= 5000.
Proof.
  intros [H0 H100].
  assert (Hr : 0.2 <= rateSlider_rate raw <= 1000).
  { unfold rateSlider_rate. destruct (Qltb_spec raw 25) as [Hlt|Hge].
    - unfold rate_low. split; qlra.
    - unfold rate_high, Math_pow2.
      assert (Hx0 : 0 <= (raw - 25) / 75) by qlra.
      assert (Hx1 : (raw - 25) / 75 <= 1) by qlra.
      set (x := (raw - 25) / 75) in *. simpl. split; nra. }
  split; [exact Hr|]. split.
  - apply Qle_shift_div_l; lra.
  - apply Qle_shift_div_r; lra.
Qed.

Lemma rate_and_interval_range_witness :
  0 <= 60 <= 100 /\
  0.2 <= rateSlider_rate 60 <= 1000 /\
  1 <= 1000 / rateSlider_rate 60 <= 5000.
Proof.
  assert (H : 0 <= 60 <= 100) by (split; vm_compute; discriminate).
  exact (conj H (rate_and_interval_range 60 H)).
Defined.

Section RateOnBinary64.

Import Binary64.
Local Open Scope float_scope.

Lemma rate_mapping_whole_pairs :
  forallb
    (fun a =>
       forallb
         (fun b =>
            implb (a <? b)%nat
              (Fltb (rateSlider_rate (of_nat a)) (rateSlider_rate (of_nat b))
               && Fgtb (1000 / rateSlider_rate (of_nat a))
                       (1000 / rateSlider_rate (of_nat b))))
         (seq 0 101))
    (seq 0 101) = true.
Proof. vm_compute. reflexivity. Qed.

(** X2.  On binary64 numbers the mapping is strictly increasing over the whole
    positions 0, 1, ..., 100 of the slider, on both branches and across 25:
    two different whole positions never give the same rate, nor the same
    interval. *)
Theorem rate_mapping_strict_on_whole_positions (a b : nat) :
  (a < b)%nat ->
  (b <= 100)%nat ->
  Fltb (rateSlider_rate (of_nat a)) (rateSlider_rate (of_nat b)) = true /\
  Fgtb (1000 / rateSlider_rate (of_nat a))
       (1000 / rateSlider_rate (of_nat b)) = true.
Proof.
  intros Hab Hb. pose proof rate_mapping_whole_pairs as H.
  rewrite forallb_forall in H.
  specialize (H a ltac:(apply in_seq; lia)).
  rewrite forallb_forall in H.
  specialize (H b ltac:(apply in_seq; lia)).
  apply Nat.ltb_lt in Hab. rewrite Hab in H. simpl in H.
  now apply andb_true_iff in H.
Qed.

Lemma rate_mapping_strict_on_whole_positions_witness :
  (24 < 25)%nat /\ (25 <= 100)%nat /\
  Fltb (rateSlider_rate (of_nat 24)) (rateSlider_rate (of_nat 25)) = true /\
  Fgtb (1000 / rateSlider_rate (of_nat 24))
       (1000 / rateSlider_rate (of_nat 25)) = true.
Proof.
  assert (H1 : (24 < 25)%nat) by lia.
  assert (H2 : (25 <= 100)%nat) by lia.
  exact (conj H1 (conj H2
           (rate_mapping_strict_on_whole_positions 24 25 H1 H2))).
Defined.

End RateOnBinary64.

(** ** The page starts paused *)

Lemma handle_paused (clock : nat -> Q) (fuel : nat) (e : Event) (w : World) :
  paused w = true ->
  not_play_click e ->
  exists w',
    handle clock fuel e w = Some w' /\
    paused w' = true /\ ticks w' = ticks w.
Proof.
  intros Hp He. destruct e as [t| |raw| |row col]; simpl.
  - exists w. split; [|split; [exact Hp | reflexivity]].
    apply renderLoop_frame_skip. unfold skips. rewrite Hp. reflexivity.
  - destruct He.
  - exists (rateSlider_input raw w). repeat split. exact Hp.
  - exists (clear_click w). repeat split. exact Hp.
  - exists (canvas_click row col w). repeat split. exact Hp.
Qed.

(** X3.  The module clicks the play/pause button once while it loads, which
    sets [paused]: whatever frames arrive and whatever else the user does
    (moving the slider, clicking cells, clearing), the automaton is not
    stepped before the button is clicked. *)
Theorem page_starts_paused (clock : nat -> Q) (fuel : nat) (raw : Q)
    (es : list Event) :
  Forall not_play_click es ->
  exists w',
    run clock fuel es (page_load clock raw) = Some w' /\
    paused w' = true /\ ticks w' = 0%nat.
Proof.
  intro Hes.
  assert (H : forall w, paused w = true ->
            exists w', run clock fuel es w = Some w' /\
                       paused w' = true /\ ticks w' = ticks w).
  { induction Hes as [|e es He Hes IH]; intros w Hp.
    - exists w. repeat split. exact Hp.
    - destruct (handle_paused clock fuel e w Hp He) as (w1 & H1 & Hp1 & Ht1).
      destruct (IH w1 Hp1) as (w2 & H2 & Hp2 & Ht2).
      exists w2. simpl. rewrite H1. repeat split; [exact H2|exact Hp2|].
      now rewrite Ht2. }
  destruct (H (page_load clock raw) eq_refl) as (w' & Hr & Hp & Ht).
  exists w'. repeat split; assumption.
Qed.

Lemma page_starts_paused_witness :
  Forall not_play_click
    [AnimationFrame 16.8; RateInput 100; CanvasClick 1 2;
     AnimationFrame 9000; ClearClick] /\
  exists w',
    run clock_stall 0
      [AnimationFrame 16.8; RateInput 100; CanvasClick 1 2;
       AnimationFrame 9000; ClearClick] (page_load clock_stall 25) =
    Some w' /\
    paused w' = true /\ ticks w' = 0%nat.
Proof.
  assert (H : Forall not_play_click
                [AnimationFrame 16.8; RateInput 100; CanvasClick 1 2;
                 AnimationFrame 9000; ClearClick])
    by (repeat constructor).
  exact (conj H (page_starts_paused clock_stall 0 25 _ H)).
Defined.

(** ** The canvas *)

Lemma skipn_nth_error_Some (l : list nat) (i v : nat) :
  nth_error l i = Some v -> skipn i l = v :: skipn (S i) l.
Proof.
  revert l. induction i as [|i IH]; intros [|x l] H; try discriminate.
  - injection H as ->. reflexivity.
  - simpl in H. now apply IH.
Qed.

Lemma skipn_nth_error_None (l : list nat) (i : nat) :
  nth_error l i = None -> skipn i l = [].
Proof. intro H. apply skipn_all2. now apply nth_error_None. Qed.

Lemma firstn_plus (a b : nat) (l : list nat) :
  firstn (a + b) l = firstn a l ++ firstn b (skipn a l).
Proof.
  revert l. induction a as [|a IH]; intros [|x l]; simpl;
    rewrite ?firstn_nil; try reflexivity.
  now rewrite IH.
Qed.

Lemma in_drawCells_cell (Alive : nat) (cells : list nat)
    (width row col : nat) (op : CanvasOp) :
  In op (drawCells_cell Alive cells width row col) <->
  nth_error cells (getIndex width row col) = Some Alive /\
  op = fillRect (col * (CELL_SIZE + 1) + 1) (row * (CELL_SIZE + 1) + 1)
         CELL_SIZE CELL_SIZE.
Proof.
  unfold drawCells_cell.
  destruct (nth_error cells (getIndex width row col)) as [v|].
  - destruct (Nat.eqb_spec v Alive) as [->|Hne]; simpl.
    + split.
      * intros [<-|[]]. split; reflexivity.
      * intros [_ ->]. now left.
    + split; [intros [] | intros [H _]]. injection H as <-. now elim Hne.
  - simpl. split; [intros [] | intros [H _]; discriminate].
Qed.

Lemma in_drawCells_ops (Alive : nat) (cells : list nat) (width height : nat)
    (x y w h : nat) :
  In (fillRect x y w h) (drawCells_ops Alive cells width height) <->
  exists row col,
    (row < height)%nat /\ (col < width)%nat /\
    nth_error cells (getIndex width row col) = Some Alive /\
    x = (col * (CELL_SIZE + 1) + 1)%nat /\
    y = (row * (CELL_SIZE + 1) + 1)%nat /\
    w = CELL_SIZE /\ h = CELL_SIZE.
Proof.
  unfold drawCells_ops. rewrite !in_app_iff, in_flat_map. split.
  - intros [[H|[H|[]]] | [(row & Hrow & H) | [H|[]]]]; try discriminate.
    apply in_flat_map in H as (col & Hcol & H).
    apply in_drawCells_cell in H as [Hnth Heq].
    apply in_seq in Hrow, Hcol. injection Heq as -> -> -> ->.
    exists row, col. repeat split; solve [lia | assumption].
  - intros (row & col & Hrow & Hcol & Hnth & -> & -> & -> & ->).
    right. left. exists row. split; [apply in_seq; lia|].
    apply in_flat_map. exists col. split; [apply in_seq; lia|].
    apply in_drawCells_cell. split; [exact Hnth | reflexivity].
Qed.

Lemma drawCells_columns_count (Alive : nat) (cells : list nat)
    (width row n : nat) :
  forall s,
    length
      (filter is_fillRect
         (flat_map (fun col => drawCells_cell Alive cells width row col)
            (seq s n))) =
    count_occ Nat.eq_dec (firstn n (skipn (row * width + s) cells)) Alive.
Proof.
  induction n as [|n IH]; intro s; [reflexivity|].
  change (seq s (S n)) with (s :: seq (S s) n).
  cbn [flat_map]. rewrite filter_app, length_app, IH.
  replace (row * width + S s)%nat with (S (row * width + s)) by lia.
  unfold drawCells_cell, getIndex.
  destruct (nth_error cells (row * width + s)) as [v|] eqn:E.
  - rewrite (skipn_nth_error_Some _ _ _ E), firstn_cons. simpl count_occ.
    destruct (Nat.eqb_spec v Alive) as [->|Hne];
      destruct (Nat.eq_dec _ Alive) as [He|Hne']; simpl;
      solve [lia | congruence].
  - rewrite (skipn_nth_error_None _ _ E).
    assert (E' : nth_error cells (S (row * width + s)) = None).
    { apply nth_error_None. apply nth_error_None in E. lia. }
    rewrite (skipn_nth_error_None _ _ E'), !firstn_nil. reflexivity.
Qed.

Lemma drawCells_rows_count (Alive : nat) (cells : list nat)
    (width h : nat) :
  forall s,
    length
      (filter is_fillRect
         (flat_map
            (fun row =>
               flat_map (fun col => drawCells_cell Alive cells width row col)
                 (seq 0 width))
            (seq s h))) =
    count_occ Nat.eq_dec (firstn (h * width) (skipn (s * width) cells)) Alive.
Proof.
  induction h as [|h IH]; intro s; [reflexivity|].
  change (seq s (S h)) with (s :: seq (S s) h).
  cbn [flat_map].
  rewrite filter_app, length_app, IH, drawCells_columns_count.
  change (S h * width)%nat with (width + h * width)%nat.
  rewrite firstn_plus, count_occ_app, skipn_skipn, Nat.add_0_r.
  change (S s * width)%nat with (width + s * width)%nat. reflexivity.
Qed.

(** X4.  [getIndex] numbers the cells of the universe within the array, each
    cell with an index of its own: for columns below [width] and rows below
    [height] the index is below [width * height], and two cells with the same
    index are the same cell. *)
Theorem getIndex_in_bounds_and_injective (width height : nat)
    (row col row' col' : nat) :
  (row < height)%nat -> (col < width)%nat -> (col' < width)%nat ->
  (getIndex width row col < width * height)%nat /\
  (getIndex width row col = getIndex width row' col' ->
   row = row' /\ col = col').
Proof.
  unfold getIndex. intros Hr Hc Hc'. split; [nia|]. intro H.
  assert (E : row = row').
  { destruct (Nat.lt_trichotomy row row') as [L|[E|G]];
      [exfalso | exact E | exfalso].
    - assert ((row + 1) * width <= row' * width)%nat
        by (apply Nat.mul_le_mono_r; lia).
      lia.
    - assert ((row' + 1) * width <= row * width)%nat
        by (apply Nat.mul_le_mono_r; lia).
      lia. }
  subst row'. split; [reflexivity | lia].
Qed.

Lemma getIndex_in_bounds_and_injective_witness :
  (2 < 3)%nat /\ (3 < 4)%nat /\ (0 < 4)%nat /\
  (getIndex 4 2 3 < 4 * 3)%nat /\
  (getIndex 4 2 3 = getIndex 4 1 0 -> 2%nat = 1%nat /\ 3%nat = 0%nat).
Proof.
  assert (H1 : (2 < 3)%nat) by lia.
  assert (H2 : (3 < 4)%nat) by lia.
  assert (H3 : (0 < 4)%nat) by lia.
  exact (conj H1 (conj H2 (conj H3
           (getIndex_in_bounds_and_injective 4 3 2 3 1 0 H1 H2 H3)))).
Defined.

(** X5.  [drawCells] fills a rectangle for a cell exactly when the cell is
    alive: the rectangles it fills are those at [(col * 6 + 1, row * 6 + 1)]
    of size 5 by 5 for the rows and columns of the universe whose entry in
    [cells] is [Cell.Alive]. *)
Theorem drawCells_fills_live_cells (Alive : nat) (cells : list nat)
    (width height : nat) (x y w h : nat) :
  In (fillRect x y w h) (drawCells_ops Alive cells width height) <->
  exists row col,
    (row < height)%nat /\ (col < width)%nat /\
    nth_error cells (getIndex width row col) = Some Alive /\
    x = (col * 6 + 1)%nat /\ y = (row * 6 + 1)%nat /\
    w = 5%nat /\ h = 5%nat.
Proof. apply in_drawCells_ops. Qed.

(** X6.  [drawCells] fills as many rectangles as there are live cells in the
    array, when the array holds the [width * height] cells of the universe. *)
Theorem drawCells_count (Alive : nat) (cells : list nat)
    (width height : nat) :
  length cells = (width * height)%nat ->
  length (filter is_fillRect (drawCells_ops Alive cells width height)) =
  count_occ Nat.eq_dec cells Alive.
Proof.
  intro Hlen. unfold drawCells_ops.
  rewrite !filter_app, !length_app, drawCells_rows_count.
  simpl. rewrite firstn_all2 by lia. lia.
Qed.

Lemma drawCells_count_witness :
  length cells_example = (4 * 3)%nat /\
  length (filter is_fillRect (drawCells_ops 1 cells_example 4 3)) =
  count_occ Nat.eq_dec cells_example 1%nat.
Proof.
  assert (H : length cells_example = (4 * 3)%nat) by reflexivity.
  exact (conj H (drawCells_count 1 cells_example 4 3 H)).
Defined.

(** X7.  The rectangles that [drawCells] fills lie inside the canvas, clear of
    its first and last pixel in each direction, and no two of them have a
    pixel in common. *)
Theorem drawCells_layout (Alive : nat) (cells : list nat)
    (width height : nat) (x1 y1 w1 h1 x2 y2 w2 h2 : nat) :
  In (fillRect x1 y1 w1 h1) (drawCells_ops Alive cells width height) ->
  In (fillRect x2 y2 w2 h2) (drawCells_ops Alive cells width height) ->
  (1 <= x1 /\ x1 + w1 < canvas_width width /\
   1 <= y1 /\ y1 + h1 < canvas_height height)%nat /\
  ((x1 = x2 /\ y1 = y2) \/ ~ overlap x1 y1 w1 h1 x2 y2 w2 h2).
Proof.
  intros H1 H2.
  apply in_drawCells_ops in H1
    as (r1 & c1 & Hr1 & Hc1 & _ & -> & -> & -> & ->).
  apply in_drawCells_ops in H2
    as (r2 & c2 & Hr2 & Hc2 & _ & -> & -> & -> & ->).
  unfold canvas_width, canvas_height, overlap, CELL_SIZE.
  split; [lia|].
  destruct (Nat.eq_dec c1 c2) as [->|Hc]; destruct (Nat.eq_dec r1 r2)
    as [->|Hr]; [left; split; reflexivity | right; lia ..].
Qed.

Lemma drawCells_layout_witness :
  In (fillRect 7 1 5 5) (drawCells_ops 1 cells_example 4 3) /\
  In (fillRect 13 7 5 5) (drawCells_ops 1 cells_example 4 3) /\
  (1 <= 7 /\ 7 + 5 < canvas_width 4 /\
   1 <= 1 /\ 1 + 5 < canvas_height 3)%nat /\
  ((7%nat = 13%nat /\ 1%nat = 7%nat) \/ ~ overlap 7 1 5 5 13 7 5 5).
Proof.
  assert (H1 : In (fillRect 7 1 5 5) (drawCells_ops 1 cells_example 4 3))
    by (simpl; tauto).
  assert (H2 : In (fillRect 13 7 5 5) (drawCells_ops 1 cells_example 4 3))
    by (simpl; tauto).
  exact (conj H1 (conj H2
           (drawCells_layout 1 cells_example 4 3 7 1 5 5 13 7 5 5 H1 H2))).
Defined.

(** ** Clicks on the canvas *)

Lemma Qfloor_eq (y : Q) (c : Z) :
  inject_Z c <= y -> y < inject_Z (c + 1) -> Qfloor y = c.
Proof.
  intros Hlo Hhi. apply Z.le_antisymm.
  - apply Z.lt_succ_r. rewrite Zlt_Qlt.
    eapply Qle_lt_trans; [apply Qfloor_le | exact Hhi].
  - rewrite <- (Qfloor_Z c). now apply Qfloor_resp_le.
Qed.

Lemma nq_mul (n m : nat) : nq (n * m) == nq n * nq m.
Proof. unfold nq. rewrite Nat2Z.inj_mul, inject_Z_mult. reflexivity. Qed.

(** A point of the element, scaled to the canvas, is a point of the
    canvas. *)
Lemma scale_bounds (d size full : Q) :
  0 < size -> 0 <= d <= size -> 0 <= full ->
  0 <= d * (full / size) <= full.
Proof.
  intros Hs [Hd0 Hd1] Hf.
  assert (H0 : 0 <= d / size) by (apply Qle_shift_div_l; lra).
  assert (H1 : d / size <= 1) by (apply Qle_shift_div_r; lra).
  assert (E : d * (full / size) == d / size * full) by (field; lra).
  rewrite E. set (s := d / size) in *. split; nra.
Qed.

Lemma click_index_in_range (x : Q) (n : nat) :
  (0 < n)%nat ->
  0 <= x <= nq (canvas_width n) ->
  (0 <= Z.min (Qfloor (x / inject_Z (Z.of_nat (CELL_SIZE + 1))))
         (Z.of_nat n - 1) <= Z.of_nat n - 1)%Z.
Proof.
  intros Hn [H0 H1]. split; [|apply Z.le_min_r].
  apply Z.min_glb; [|lia].
  change 0%Z with (Qfloor 0). apply Qfloor_resp_le.
  change (inject_Z (Z.of_nat (CELL_SIZE + 1))) with 6. qlra.
Qed.

(** X8.  A click anywhere on the canvas, however the page scales it, is taken
    for a cell of the universe: the row lies between 0 and [height - 1], the
    column between 0 and [width - 1]. The clamp with [Math.min] is what keeps
    the clicks on the last pixel in. *)
Theorem click_in_universe (width height : nat) (r : DOMRect)
    (clientX clientY : Q) :
  (0 < width)%nat -> (0 < height)%nat ->
  0 < rect_width r -> 0 < rect_height r ->
  rect_left r <= clientX <= rect_left r + rect_width r ->
  rect_top r <= clientY <= rect_top r + rect_height r ->
  (0 <= click_row height r clientY <= Z.of_nat height - 1)%Z /\
  (0 <= click_col width r clientX <= Z.of_nat width - 1)%Z.
Proof.
  intros Hw Hh Hrw Hrh Hx Hy. split.
  - apply click_index_in_range; [exact Hh|].
    apply scale_bounds; [exact Hrh | lra | apply nq_nonneg].
  - apply click_index_in_range; [exact Hw|].
    apply scale_bounds; [exact Hrw | lra | apply nq_nonneg].
Qed.

Lemma click_in_universe_witness :
  (0 < 4)%nat /\ (0 < 3)%nat /\
  0 < rect_width rect_example /\ 0 < rect_height rect_example /\
  rect_left rect_example <= 60 <=
  rect_left rect_example + rect_width rect_example /\
  rect_top rect_example <= 58 <=
  rect_top rect_example + rect_height rect_example /\
  (0 <= click_row 3 rect_example 58 <= Z.of_nat 3 - 1)%Z /\
  (0 <= click_col 4 rect_example 60 <= Z.of_nat 4 - 1)%Z.
Proof.
  assert (H1 : (0 < 4)%nat) by lia.
  assert (H2 : (0 < 3)%nat) by lia.
  assert (H3 : 0 < rect_width rect_example) by reflexivity.
  assert (H4 : 0 < rect_height rect_example) by reflexivity.
  assert (H5 : rect_left rect_example <= 60 <=
               rect_left rect_example + rect_width rect_example)
    by (split; vm_compute; discriminate).
  assert (H6 : rect_top rect_example <= 58 <=
               rect_top rect_example + rect_height rect_example)
    by (split; vm_compute; discriminate).
  exact (conj H1 (conj H2 (conj H3 (conj H4 (conj H5 (conj H6
           (click_in_universe 4 3 rect_example 60 58
              H1 H2 H3 H4 H5 H6))))))).
Defined.

Lemma click_index_of_cell (x : Q) (n i : nat) :
  (i < n)%nat ->
  nq (i * (CELL_SIZE + 1) + 1) <= x ->
  x < nq (i * (CELL_SIZE + 1) + 1 + CELL_SIZE) ->
  Z.min (Qfloor (x / inject_Z (Z.of_nat (CELL_SIZE + 1))))
    (Z.of_nat n - 1) = Z.of_nat i.
Proof.
  intros Hi Hlo Hhi.
  rewrite (nq_add (i * (CELL_SIZE + 1)) 1), (nq_mul i (CELL_SIZE + 1)) in Hlo.
  rewrite (nq_add (i * (CELL_SIZE + 1) + 1) CELL_SIZE),
    (nq_add (i * (CELL_SIZE + 1)) 1), (nq_mul i (CELL_SIZE + 1)) in Hhi.
  change (nq (CELL_SIZE + 1)) with 6 in Hlo, Hhi.
  change (nq 1) with 1 in Hlo, Hhi. change (nq CELL_SIZE) with 5 in Hhi.
  change (inject_Z (Z.of_nat (CELL_SIZE + 1))) with 6.
  assert (E : Qfloor (x / 6) = Z.of_nat i).
  { apply Qfloor_eq.
    - fold (nq i). qlra.
    - rewrite inject_Z_plus. fold (nq i). change (inject_Z 1) with 1. qlra. }
  rewrite E. apply Z.min_l. lia.
Qed.

(** X9.  Drawing and clicking agree: a click on a pixel of a rectangle that
    [drawCells] has filled is taken for the live cell the rectangle was filled
    for, and the handler toggles that cell and draws again. *)
Theorem click_on_filled_rectangle (Alive : nat) (cells : list nat)
    (width height : nat) (r : DOMRect) (clientX clientY : Q) (x y w h : nat)
    (s : World) :
  In (fillRect x y w h) (drawCells_ops Alive cells width height) ->
  nq x <= canvasLeft width r clientX < nq (x + w) ->
  nq y <= canvasTop height r clientY < nq (y + h) ->
  exists row col,
    (row < height)%nat /\ (col < width)%nat /\
    nth_error cells (getIndex width row col) = Some Alive /\
    click_row height r clientY = Z.of_nat row /\
    click_col width r clientX = Z.of_nat col /\
    calls (canvas_click_at width height r clientX clientY s) =
    drawCells :: universe_toggle_cell (Z.of_nat row) (Z.of_nat col) ::
    calls s.
Proof.
  intros Hin [Hx0 Hx1] [Hy0 Hy1].
  apply in_drawCells_ops in Hin
    as (row & col & Hrow & Hcol & Hnth & -> & -> & -> & ->).
  assert (Er : click_row height r clientY = Z.of_nat row)
    by (now apply click_index_of_cell).
  assert (Ec : click_col width r clientX = Z.of_nat col)
    by (now apply click_index_of_cell).
  exists row, col. repeat split; try assumption.
  unfold canvas_click_at. rewrite Er, Ec. reflexivity.
Qed.

Lemma click_on_filled_rectangle_witness :
  In (fillRect 13 7 5 5) (drawCells_ops 1 cells_example 4 3) /\
  nq 13 <= canvasLeft 4 rect_example 40 < nq (13 + 5) /\
  nq 7 <= canvasTop 3 rect_example 36 < nq (7 + 5) /\
  exists row col,
    (row < 3)%nat /\ (col < 4)%nat /\
    nth_error cells_example (getIndex 4 row col) = Some 1%nat /\
    click_row 3 rect_example 36 = Z.of_nat row /\
    click_col 4 rect_example 40 = Z.of_nat col /\
    calls (canvas_click_at 4 3 rect_example 40 36 world_loaded) =
    drawCells :: universe_toggle_cell (Z.of_nat row) (Z.of_nat col) ::
    calls world_loaded.
Proof.
  assert (H1 : In (fillRect 13 7 5 5) (drawCells_ops 1 cells_example 4 3))
    by (simpl; tauto).
  assert (H2 : nq 13 <= canvasLeft 4 rect_example 40 < nq (13 + 5))
    by (split; [vm_compute; discriminate | reflexivity]).
  assert (H3 : nq 7 <= canvasTop 3 rect_example 36 < nq (7 + 5))
    by (split; [vm_compute; discriminate | reflexivity]).
  exact (conj H1 (conj H2 (conj H3
           (click_on_filled_rectangle 1 cells_example 4 3 rect_example
              40 36 13 7 5 5 world_loaded H1 H2 H3)))).
Defined.

(** ** The statistics shown *)

Lemma roundTenth_mono (x y : Q) : x <= y -> roundTenth x <= roundTenth y.
Proof.
  intro H. unfold roundTenth, Math_round.
  assert (Hz : (Qfloor (x * 10 + 1 / 2) <= Qfloor (y * 10 + 1 / 2))%Z)
    by (apply Qfloor_resp_le; qlra).
  rewrite Zle_Qle in Hz. qlra.
Qed.

Lemma record_cons (x : Q) (a : list Q) : record x a = x :: firstn 99 a.
Proof. reflexivity. Qed.

Lemma Forall_firstn_pos (n : nat) (a : list Q) :
  Forall (fun y => 0 < y) a -> Forall (fun y => 0 < y) (firstn n a).
Proof.
  intro H. revert n. induction H as [|y a Hy Ha IH]; intros [|n]; simpl;
    constructor; [exact Hy | apply IH].
Qed.

Lemma fold_min_bounds (l : list Q) :
  forall acc,
    0 < acc -> Forall (fun y => 0 < y) l ->
    0 < fold_left Math_min l acc /\
    fold_left Math_min l acc <= acc /\
    Forall (fun y => fold_left Math_min l acc <= y) l.
Proof.
  induction l as [|y l IH]; intros acc Hacc Hl; simpl.
  - repeat split; [exact Hacc | lra | constructor].
  - inversion Hl as [|? ? Hy Hl']; subst.
    assert (Hm : 0 < Math_min acc y)
      by (unfold Math_min; destruct (Qltb y acc); assumption).
    destruct (IH (Math_min acc y) Hm Hl') as (Hpos & Hle & Hall).
    pose proof (Math_min_le_l acc y). pose proof (Math_min_le_r acc y).
    repeat split; [exact Hpos | lra |].
    constructor; [lra | exact Hall].
Qed.

Lemma Math_max_ge_l (x y : Q) : x <= Math_max x y.
Proof. unfold Math_max. destruct (Qltb_spec x y); lra. Qed.

Lemma Math_max_ge_r (x y : Q) : y <= Math_max x y.
Proof. unfold Math_max. destruct (Qltb_spec x y); lra. Qed.

Lemma fold_max_bounds (l : list Q) :
  forall acc,
    acc <= fold_left Math_max l acc /\
    Forall (fun y => y <= fold_left Math_max l acc) l.
Proof.
  induction l as [|y l IH]; intro acc; simpl.
  - split; [lra | constructor].
  - destruct (IH (Math_max acc y)) as (Hle & Hall).
    pose proof (Math_max_ge_l acc y). pose proof (Math_max_ge_r acc y).
    split; [lra|]. constructor; [lra | exact Hall].
Qed.

Lemma fold_sum_bounds (lo hi : Q) (l : list Q) :
  forall acc,
    Forall (fun y => lo <= y <= hi) l ->
    acc + nq (length l) * lo <= fold_left Qplus l acc /\
    fold_left Qplus l acc <= acc + nq (length l) * hi.
Proof.
  induction l as [|y l IH]; intros acc Hl; simpl.
  - rewrite nq_0. split; lra.
  - inversion Hl as [|? ? Hy Hl']; subst.
    destruct (IH (acc + y) Hl') as (H1 & H2).
    change (nq (S (length l))) with (nq (S (length l))).
    rewrite nq_S. split; lra.
Qed.

(** The mean of a window lies between its least and its greatest sample. *)
Lemma mean_bounds (lo hi : Q) (l : list Q) :
  l <> [] ->
  Forall (fun y => lo <= y <= hi) l ->
  lo <= mean l <= hi.
Proof.
  intros Hne Hl. unfold mean. fold (nq (length l)).
  destruct (fold_sum_bounds lo hi l 0 Hl) as (H1 & H2).
  assert (Hn : 0 < nq (length l)).
  { destruct l as [|y l]; [congruence|]. simpl length. rewrite nq_S.
    pose proof (nq_nonneg (length l)). lra. }
  split.
  - apply Qle_shift_div_l; [exact Hn | lra].
  - apply Qle_shift_div_r; [exact Hn | lra].
Qed.

(** A longer time is a lower rate. *)
Lemma rate_antitone (a b : Q) : 0 < a -> a <= b -> 1000 / b <= 1000 / a.
Proof.
  intros Ha Hab.
  assert (Hq : 0 < 1000 / a) by (apply Qlt_shift_div_l; lra).
  assert (E : 1000 / a * a == 1000) by (field; lra).
  apply Qle_shift_div_r; [lra|].
  set (q := 1000 / a) in *. nra.
Qed.



(** ** The first revision *)


(** ** The budget of a frame *)

(** X16.  The budget bounds the steps of a frame: when the [j]-th step of a
    frame ends no earlier than [j] times [tau] after the frame started, a
    frame that takes more than one step takes no more than fit in
    [maxFrameTime] before its last, and so never more than fit in 100 ms. *)
Theorem budget_bounds_steps (clock : nat -> Q) (t tau : Q) (w : World) :
  0 < interval w ->
  (forall j, nq (S j) * tau <= clock (S (reads w) + j)%nat - t) ->
  exists fuel w',
    (forall fuel', (fuel <= fuel')%nat ->
       renderLoop_frame clock fuel' t w = Some w') /\
    ((ticks w' - ticks w <= 1)%nat \/
     nq (ticks w' - ticks w - 1) * tau <= maxFrameTime t w /\
     nq (ticks w' - ticks w - 1) * tau <= 100).
Proof.
  intros Hi Hclock.
  destruct (renderLoop_frame_total clock t w Hi) as (fuel & w' & H & Hk & Hr).
  exists fuel, w'. split; [exact H|].
  destruct (skips t w) eqn:Hs.
  - left. rewrite (Hk eq_refl). lia.
  - destruct (Hr eq_refl) as (k & w1 & P & ->).
    rewrite (passes_exit_ticks _ _ _ _ _ _ P).
    replace (k + ticks w - ticks w)%nat with k by lia.
    destruct k as [|[|k]]; [left; lia | left; lia | right].
    pose proof (ps_within _ _ _ _ _ _ P k ltac:(lia)) as W.
    change (reads (loop_entry clock t w)) with (S (reads w)) in W.
    specialize (Hclock k).
    replace (S (S k) - 1)%nat with (S k) by lia.
    pose proof (Math_min_le_l 100 ((t - lastFrameEnd w) * 4)) as M.
    fold (maxFrameTime t w) in M. split; lra.
Qed.

Lemma budget_bounds_steps_witness :
  0 < interval world_1Hz /\
  (forall j, nq (S j) * 0.1 <=
             clock_stall (S (reads world_1Hz) + j)%nat - 5000.1) /\
  exists fuel w',
    (forall fuel', (fuel <= fuel')%nat ->
       renderLoop_frame clock_stall fuel' 5000.1 world_1Hz = Some w') /\
    ((ticks w' - ticks world_1Hz <= 1)%nat \/
     nq (ticks w' - ticks world_1Hz - 1) * 0.1 <=
     maxFrameTime 5000.1 world_1Hz /\
     nq (ticks w' - ticks world_1Hz - 1) * 0.1 <= 100).
Proof.
  assert (H1 : 0 < interval world_1Hz) by reflexivity.
  assert (H2 : forall j, nq (S j) * 0.1 <=
                         clock_stall (S (reads world_1Hz) + j)%nat - 5000.1).
  { intro j. change (S (reads world_1Hz) + j)%nat with (S (S (S j))).
    unfold clock_stall. change (S (S (S j)) <? 2)%nat with false.
    cbv iota. rewrite !nq_S. qlra. }
  exact (conj H1 (conj H2
           (budget_bounds_steps clock_stall 5000.1 0.1 world_1Hz H1 H2))).
Defined.

(** ** What every run of the page keeps *)

Lemma run_preserves (P : World -> Prop) (clock : nat -> Q) (fuel : nat) :
  (forall e w w', P w -> handle clock fuel e w = Some w' -> P w') ->
  forall es w w', P w -> run clock fuel es w = Some w' -> P w'.
Proof.
  intros Hstep es. induction es as [|e es IH]; intros w w' Hw H.
  - injection H as <-. exact Hw.
  - simpl in H. destruct (handle clock fuel e w) as [w1|] eqn:E;
      [|discriminate].
    apply (IH w1 w'); [|exact H]. now apply (Hstep e w w1).
Qed.

Lemma handle_fresh (clock : nat -> Q) (fuel : nat) (e : Event)
    (w w' : World) :
  hd_error (calls w) = Some drawCells ->
  handle clock fuel e w = Some w' ->
  hd_error (calls w') = Some drawCells.
Proof.
  intros Hw H. destruct e as [t| |raw| |row col]; simpl in H;
    try (injection H as <-; solve [exact Hw | reflexivity]).
  destruct (skips t w) eqn:Hs.
  - rewrite renderLoop_frame_skip in H by exact Hs. injection H as <-.
    exact Hw.
  - rewrite renderLoop_frame_run in H by exact Hs.
    destruct (renderLoop_while clock fuel t (maxFrameTime t w)
                (loop_entry clock t w)) as [w1|]; [|discriminate].
    injection H as <-. reflexivity.
Qed.

Lemma handle_windows (clock : nat -> Q) (fuel : nat) (e : Event)
    (w w' : World) :
  (length (frames w) <= 100 /\ length (tickTimes w) <= 100)%nat ->
  handle clock fuel e w = Some w' ->
  (length (frames w') <= 100 /\ length (tickTimes w') <= 100)%nat.
Proof.
  intros [Hf Ht] H. destruct e as [t| |raw| |row col]; simpl in H;
    try (injection H as <-; split; assumption).
  now apply (renderLoop_frame_windows clock fuel t w w').
Qed.

(** X17.  The canvas is never stale when the page waits for the next frame or
    event: from the loaded page on, after any frames, clicks and slider
    positions, the newest call to a collaborator is [drawCells()], so every
    step, toggle and reset has been followed by a render. *)
Theorem canvas_never_stale (clock : nat -> Q) (raw : Q) (es : list Event) :
  0 <= raw <= 100 ->
  Forall slider_range es ->
  exists fuel w',
    (forall fuel', (fuel <= fuel')%nat ->
       run clock fuel' es (page_load clock raw) = Some w') /\
    hd_error (calls w') = Some drawCells.
Proof.
  intros [Hraw _] Hes.
  destruct (page_load_ready clock raw Hraw) as (_ & Hi & Hd & _).
  destruct (run_total clock es (page_load clock raw) Hi) as
    (fuel & w' & H & _); [rewrite Hd; lra | exact Hes |].
  exists fuel, w'. split; [exact H|].
  apply (run_preserves (fun w => hd_error (calls w) = Some drawCells)
           clock fuel (handle_fresh clock fuel) es (page_load clock raw) w');
    [reflexivity | apply H; lia].
Qed.

Lemma canvas_never_stale_witness :
  0 <= 25 <= 100 /\
  Forall slider_range history /\
  exists fuel w',
    (forall fuel', (fuel <= fuel')%nat ->
       run clock_stall fuel' history (page_load clock_stall 25) = Some w') /\
    hd_error (calls w') = Some drawCells.
Proof.
  assert (H1 : 0 <= 25 <= 100) by (split; vm_compute; discriminate).
  assert (H2 : Forall slider_range history).
  { repeat constructor; vm_compute; discriminate. }
  exact (conj H1 (conj H2 (canvas_never_stale clock_stall 25 history H1 H2))).
Defined.

(** X18.  Neither [fps.frames] nor [tickTimes] ever holds more than 100
    samples: from the loaded page on, after any frames, clicks and slider
    positions. *)
Theorem windows_never_overflow (clock : nat -> Q) (raw : Q)
    (es : list Event) :
  0 <= raw <= 100 ->
  Forall slider_range es ->
  exists fuel w',
    (forall fuel', (fuel <= fuel')%nat ->
       run clock fuel' es (page_load clock raw) = Some w') /\
    (length (frames w') <= 100)%nat /\
    (length (tickTimes w') <= 100)%nat.
Proof.
  intros [Hraw _] Hes.
  destruct (page_load_ready clock raw Hraw) as (_ & Hi & Hd & _).
  destruct (run_total clock es (page_load clock raw) Hi) as
    (fuel & w' & H & _); [rewrite Hd; lra | exact Hes |].
  exists fuel, w'. split; [exact H|].
  apply (run_preserves
           (fun w => (length (frames w) <= 100 /\
                      length (tickTimes w) <= 100)%nat)
           clock fuel (handle_windows clock fuel) es (page_load clock raw) w');
    [simpl; lia | apply H; lia].
Qed.

Lemma windows_never_overflow_witness :
  0 <= 25 <= 100 /\
  Forall slider_range history /\
  exists fuel w',
    (forall fuel', (fuel <= fuel')%nat ->
       run clock_stall fuel' history (page_load clock_stall 25) = Some w') /\
    (length (frames w') <= 100)%nat /\
    (length (tickTimes w') <= 100)%nat.
Proof.
  assert (H1 : 0 <= 25 <= 100) by (split; vm_compute; discriminate).
  assert (H2 : Forall slider_range history).
  { repeat constructor; vm_compute; discriminate. }
  exact (conj H1 (conj H2
           (windows_never_overflow clock_stall 25 history H1 H2))).
Defined.

(** ** The earlier revision *)

Lemma renderLoop_frame_earlier_total_witness :
  0 < interval world_1Hz /\
  exists fuel w',
    (forall fuel', (fuel <= fuel')%nat ->
       renderLoop_frame_earlier clock_stall fuel' 5000.1 world_1Hz =
       Some w') /\
    (skips 5000.1 world_1Hz = true -> w' = world_1Hz) /\
    (skips 5000.1 world_1Hz = false ->
       exists k,
         calls w' = drawCells :: repeat universe_tick k ++ calls world_1Hz /\
         0 < delta w' /\ delta w' <= interval w').
Proof.
  assert (H : 0 < interval world_1Hz) by reflexivity.
  exact (conj H
           (renderLoop_frame_earlier_total clock_stall 5000.1 world_1Hz H)).
Defined.

(** ** [drawCells] of the first revision *)

Lemma count_two_states (Alive Dead : nat) (cells : list nat) :
  Alive <> Dead ->
  Forall (fun v => v = Alive \/ v = Dead) cells ->
  (count_occ Nat.eq_dec cells Alive + count_occ Nat.eq_dec cells Dead)%nat =
  length cells.
Proof.
  intros Hne H. induction H as [|v cells Hv _ IH]; [reflexivity|].
  simpl. destruct (Nat.eq_dec v Alive) as [E1|E1];
    destruct (Nat.eq_dec v Dead) as [E2|E2]; lia.
Qed.

(** X20.  The first revision paints every cell on every draw: when the array
    holds the [width * height] cells of the universe, each alive or dead, it
    fills [width * height] rectangles, the live cells after setting the colour
    of the living and the dead after setting the colour of the dead. *)
Theorem drawCells_first_paints_every_cell (Alive Dead : nat)
    (cells : list nat) (width height : nat) :
  Alive <> Dead ->
  Forall (fun v => v = Alive \/ v = Dead) cells ->
  length cells = (width * height)%nat ->
  exists live dead,
    drawCells_first_ops Alive Dead cells width height =
    [beginPath] ++ (fillStyle ALIVE_COLOR :: live) ++
    (fillStyle DEAD_COLOR :: dead) ++ [stroke] /\
    length (filter is_fillRect live) = count_occ Nat.eq_dec cells Alive /\
    length (filter is_fillRect dead) = count_occ Nat.eq_dec cells Dead /\
    (length (filter is_fillRect live) + length (filter is_fillRect dead))%nat =
    (width * height)%nat.
Proof.
  intros Hne Hcells Hlen.
  pose (pass_of := fun state =>
    flat_map
      (fun row =>
         flat_map (fun col => drawCells_cell state cells width row col)
           (seq 0 width))
      (seq 0 height)).
  assert (Hcount : forall state,
            length (filter is_fillRect (pass_of state)) =
            count_occ Nat.eq_dec cells state).
  { intro f. unfold pass_of. rewrite drawCells_rows_count. simpl skipn.
    rewrite firstn_all2 by lia. reflexivity. }
  exists (pass_of Alive), (pass_of Dead). split; [|split; [|split]].
  - unfold drawCells_first_ops, pass_of. cbn [flat_map].
    rewrite app_nil_r, <- app_assoc. reflexivity.
  - apply Hcount.
  - apply Hcount.
  - rewrite !Hcount, <- Hlen. now apply count_two_states.
Qed.

Lemma drawCells_first_paints_every_cell_witness :
  1%nat <> 0%nat /\
  Forall (fun v => v = 1%nat \/ v = 0%nat) cells_example /\
  length cells_example = (4 * 3)%nat /\
  exists live dead,
    drawCells_first_ops 1 0 cells_example 4 3 =
    [beginPath] ++ (fillStyle ALIVE_COLOR :: live) ++
    (fillStyle DEAD_COLOR :: dead) ++ [stroke] /\
    length (filter is_fillRect live) =
    count_occ Nat.eq_dec cells_example 1%nat /\
    length (filter is_fillRect dead) =
    count_occ Nat.eq_dec cells_example 0%nat /\
    (length (filter is_fillRect live) + length (filter is_fillRect dead))%nat =
    (4 * 3)%nat.
Proof.
  assert (H1 : 1%nat <> 0%nat) by discriminate.
  assert (H2 : Forall (fun v => v = 1%nat \/ v = 0%nat) cells_example)
    by (repeat constructor; tauto).
  assert (H3 : length cells_example = (4 * 3)%nat) by reflexivity.
  exact (conj H1 (conj H2 (conj H3
           (drawCells_first_paints_every_cell 1 0 cells_example 4 3
              H1 H2 H3)))).
Defined.
